(** * Age of War: the battle strategy solver of [age_of_war.py]

    A shallow embedding of the unit catalogue, the single battle evaluator,
    the armies and the exhaustive arrangement search, followed by the
    properties the specification states about them.

    Python integers are unbounded, so counts are [Z]; [//] is floor division,
    which is [Z.div] for the positive divisor used here.  Exceptions are
    values of a [result] type. *)

From Stdlib Require Import String Ascii ZArith List Bool Lia Permutation Sorted.
From Stdlib Require Import Decimal DecimalString DecimalPos DecimalZ.
Import ListNotations.

Local Open Scope Z_scope.

(** ** Exceptions *)

Inductive Exception : Type :=
| ValueError (msg : string).

Inductive result (A : Type) : Type :=
| Ok (a : A)
| Raise (e : Exception).

Arguments Ok {A} a.
Arguments Raise {A} e.

Definition bind {A B : Type} (r : result A) (k : A -> result B) : result B :=
  match r with
  | Ok a => k a
  | Raise e => Raise e
  end.

Notation "x <- r ;; k" := (bind r (fun x => k))
  (at level 61, r at next level, right associativity).

(** ** Enumerations *)

Inductive UnitType : Type :=
| MILITIA
| SPEARMEN
| LIGHT_CAVALRY
| HEAVY_CAVALRY
| FOOT_ARCHER
| CAVALRY_ARCHER.

Inductive BattleOutcome : Type :=
| WIN
| DRAW
| LOSS.

Definition UnitType_eqb (a b : UnitType) : bool :=
  match a, b with
  | MILITIA, MILITIA
  | SPEARMEN, SPEARMEN
  | LIGHT_CAVALRY, LIGHT_CAVALRY
  | HEAVY_CAVALRY, HEAVY_CAVALRY
  | FOOT_ARCHER, FOOT_ARCHER
  | CAVALRY_ARCHER, CAVALRY_ARCHER => true
  | _, _ => false
  end.

Definition BattleOutcome_eqb (a b : BattleOutcome) : bool :=
  match a, b with
  | WIN, WIN | DRAW, DRAW | LOSS, LOSS => true
  | _, _ => false
  end.

(** ** Units

    The six subclasses of [Unit] differ only in [_get_unit_type] and
    [get_advantages]; an instance is therefore its type tag and its count. *)

Record Unit : Type := mkUnit {
  unit_type : UnitType;
  count : Z
}.

(** [get_advantages], one row per subclass. *)
Definition get_advantages (t : UnitType) : list UnitType :=
  match t with
  | MILITIA => [SPEARMEN; LIGHT_CAVALRY]
  | SPEARMEN => [LIGHT_CAVALRY; HEAVY_CAVALRY]
  | LIGHT_CAVALRY => [FOOT_ARCHER; CAVALRY_ARCHER]
  | HEAVY_CAVALRY => [MILITIA; FOOT_ARCHER; LIGHT_CAVALRY]
  | FOOT_ARCHER => [MILITIA; CAVALRY_ARCHER]
  | CAVALRY_ARCHER => [SPEARMEN; HEAVY_CAVALRY]
  end.

(** [x in xs] on a list of enumeration members. *)
Definition UnitType_in (x : UnitType) (xs : list UnitType) : bool :=
  existsb (UnitType_eqb x) xs.

(** [Unit.has_advantage_over]. *)
Definition has_advantage_over (self other_unit : Unit) : bool :=
  UnitType_in (unit_type other_unit) (get_advantages (unit_type self)).

(** The relation on kinds that [has_advantage_over] consults. *)
Definition beats (a b : UnitType) : bool :=
  has_advantage_over (mkUnit a 0) (mkUnit b 0).

(** ** UnitFactory *)

Module UnitFactory.

(** The class table [_unit_classes]; a class is named by the tag its
    instances carry. *)
Definition _unit_classes : list (UnitType * UnitType) :=
  [ (MILITIA, MILITIA);
    (SPEARMEN, SPEARMEN);
    (LIGHT_CAVALRY, LIGHT_CAVALRY);
    (HEAVY_CAVALRY, HEAVY_CAVALRY);
    (FOOT_ARCHER, FOOT_ARCHER);
    (CAVALRY_ARCHER, CAVALRY_ARCHER) ].

(** [dict.get]. *)
Fixpoint get (d : list (UnitType * UnitType)) (k : UnitType)
  : option UnitType :=
  match d with
  | [] => None
  | (k', v) :: d' => if UnitType_eqb k k' then Some v else get d' k
  end.

(** [create_unit]; the message of the error also spells out the offending
    type, which is left out here. *)
Definition create_unit (ut : UnitType) (n : Z) : result Unit :=
  match get _unit_classes ut with
  | None => Raise (ValueError "Unknown unit type")
  | Some unit_class => Ok (mkUnit unit_class n)
  end.

End UnitFactory.

(** ** Battle *)

Module Battle.

Definition ADVANTAGE_MULTIPLIER : Z := 2.

Definition _get_effective_count (attacker defender : Unit) : Z :=
  if has_advantage_over attacker defender then
    count attacker * ADVANTAGE_MULTIPLIER
  else if has_advantage_over defender attacker then
    count attacker / ADVANTAGE_MULTIPLIER
  else
    count attacker.

Definition _calculate_outcome (attacker defender : Unit) : BattleOutcome :=
  let effective_attacker_count := _get_effective_count attacker defender in
  let defender_count := count defender in
  if effective_attacker_count >? defender_count then WIN
  else if effective_attacker_count =? defender_count then DRAW
  else LOSS.

(** A [Battle] object: both units and the outcome fixed by [__init__]. *)
Record t : Type := mk {
  attacker : Unit;
  defender : Unit;
  outcome : BattleOutcome
}.

Definition init (a d : Unit) : t := mk a d (_calculate_outcome a d).

End Battle.

(** ** Army *)

Record Army : Type := mkArmy {
  _platoons : list Unit
}.

(** The [platoons] property hands out a copy of the list. *)
Definition platoons (self : Army) : list Unit := _platoons self.

Definition get_platoon_count (self : Army) : nat := length (_platoons self).

(** ** itertools.permutations

    The standard library generator the search iterates over.  Its contract:
    [permutations(iterable, r)] yields the [r]-length tuples of elements
    taken at pairwise distinct positions of the pool, in lexicographic order
    of the positions; nothing when [r] exceeds the pool; [r] defaults to
    the length of the pool.  Elements are told apart by position, not by
    value. *)

Module itertools.
Section Permutations.

Context {A : Type}.

(** Every way of taking one element out of the pool, leftmost first,
    together with what remains (order kept). *)
Fixpoint picks (pool : list A) : list (A * list A) :=
  match pool with
  | [] => []
  | x :: xs => (x, xs) :: map (fun p => (fst p, x :: snd p)) (picks xs)
  end.

Fixpoint permutations_r (r : nat) (pool : list A) : list (list A) :=
  match r with
  | O => [[]]
  | S r' =>
      flat_map
        (fun p => map (cons (fst p)) (permutations_r r' (snd p)))
        (picks pool)
  end.

Definition permutations (pool : list A) : list (list A) :=
  permutations_r (length pool) pool.

End Permutations.
End itertools.

(** ** WarSimulation *)

(** [sum] of a sequence of integers. *)
Definition sum (xs : list Z) : Z := fold_left Z.add xs 0.

Module WarSimulation.

Definition REQUIRED_WINS : Z := 3.

Record t : Type := mk {
  _attacking_army : Army;
  _defending_army : Army
}.

Definition _validate_armies (self : t) : result unit :=
  if negb (Nat.eqb (get_platoon_count (_attacking_army self))
                   (get_platoon_count (_defending_army self)))
  then Raise (ValueError "Armies must have the same number of platoons")
  else Ok tt.

(** [__init__]: the fields are set, then validated. *)
Definition init (attacking_army defending_army : Army) : result t :=
  let self := mk attacking_army defending_army in
  _ <- _validate_armies self ;;
  Ok self.

(** One [Battle] per pair of [zip], which stops at the shorter list. *)
Definition _simulate_battles (attacking_platoons defending_platoons : list Unit)
  : list Battle.t :=
  map (fun p => Battle.init (fst p) (snd p))
      (combine attacking_platoons defending_platoons).

Definition _is_winning_arrangement (battles : list Battle.t) : bool :=
  let wins :=
    sum (map (fun _ => 1)
             (filter (fun battle =>
                        BattleOutcome_eqb (Battle.outcome battle) WIN)
                     battles)) in
  wins >=? REQUIRED_WINS.

(** The [for] loop of [find_winning_arrangement] over the arrangements
    still to come; [return] leaves it at the first winning one. *)
Fixpoint search (defending_platoons : list Unit)
         (arrangements : list (list Unit)) : option Army :=
  match arrangements with
  | [] => None
  | arrangement :: rest =>
      let battles := _simulate_battles arrangement defending_platoons in
      if _is_winning_arrangement battles then Some (mkArmy arrangement)
      else search defending_platoons rest
  end.

Definition find_winning_arrangement (self : t) : option Army :=
  let defending_platoons := platoons (_defending_army self) in
  search defending_platoons
         (itertools.permutations (platoons (_attacking_army self))).

Definition get_battle_report (self : t) (army_arrangement : Army)
  : list Battle.t :=
  _simulate_battles (platoons army_arrangement)
                    (platoons (_defending_army self)).

End WarSimulation.

(** The two calls [solve_war_scenario] makes on parsed armies: construct the
    simulation, then search. *)
Definition simulate_war (attacking_army defending_army : Army)
  : result (option Army) :=
  simulation <- WarSimulation.init attacking_army defending_army ;;
  Ok (WarSimulation.find_winning_arrangement simulation).

(** ** Vocabulary of the statements *)

(** The outcomes of an arrangement paired position by position with the
    defenders, each pair judged by the battle evaluator. *)
Definition pairwise_outcomes (arrangement defenders : list Unit)
  : list BattleOutcome :=
  map (fun p => Battle._calculate_outcome (fst p) (snd p))
      (combine arrangement defenders).

(** Number of [WIN]s in a list of outcomes. *)
Definition wins (os : list BattleOutcome) : nat :=
  length (filter (fun o => BattleOutcome_eqb o WIN) os).

(** An arrangement qualifies when it wins at least three battles. *)
Definition qualifies (arrangement defenders : list Unit) : bool :=
  (3 <=? wins (pairwise_outcomes arrangement defenders))%nat.

(** [tuple(pool[i] for i in indices)]. *)
Definition at_positions {A : Type} (d : A) (pool : list A) (indices : list nat)
  : list A :=
  map (fun i => nth i pool d) indices.

(** Strict lexicographic order on position tuples. *)
Fixpoint lex_ltb (xs ys : list nat) : bool :=
  match xs, ys with
  | [], [] => false
  | [], _ :: _ => true
  | _ :: _, [] => false
  | x :: xs', y :: ys' =>
      (x <? y)%nat || ((x =? y)%nat && lex_ltb xs' ys')
  end.

Definition lex_lt (xs ys : list nat) : Prop := lex_ltb xs ys = true.

(** ** Sample data of [run_sample_test] *)

Definition sample_attackers : Army :=
  mkArmy [ mkUnit SPEARMEN 10; mkUnit MILITIA 30; mkUnit FOOT_ARCHER 20;
           mkUnit LIGHT_CAVALRY 1000; mkUnit HEAVY_CAVALRY 120 ].

Definition sample_defenders : Army :=
  mkArmy [ mkUnit MILITIA 10; mkUnit SPEARMEN 10; mkUnit FOOT_ARCHER 1000;
           mkUnit LIGHT_CAVALRY 120; mkUnit CAVALRY_ARCHER 100 ].

(** ** Text: values, [__str__], [split] and [join]

    A text is the sequence of its bytes in UTF-8; the separators and the
    unit names are ASCII, so splitting and comparing bytes agrees with
    splitting and comparing characters.  What [print] writes is kept as
    the list of the texts printed, one entry per call. *)

(** [UnitType.value]. *)
Definition UnitType_value (t : UnitType) : string :=
  match t with
  | MILITIA => "Militia"
  | SPEARMEN => "Spearmen"
  | LIGHT_CAVALRY => "LightCavalry"
  | HEAVY_CAVALRY => "HeavyCavalry"
  | FOOT_ARCHER => "FootArcher"
  | CAVALRY_ARCHER => "CavalryArcher"
  end.

(** [BattleOutcome.value]. *)
Definition BattleOutcome_value (o : BattleOutcome) : string :=
  match o with
  | WIN => "Win"
  | DRAW => "Draw"
  | LOSS => "Loss"
  end.

(** The members of [UnitType] in definition order. *)
Definition UnitType_members : list UnitType :=
  [MILITIA; SPEARMEN; LIGHT_CAVALRY; HEAVY_CAVALRY; FOOT_ARCHER; CAVALRY_ARCHER].

(** [UnitType(s)]: the member whose value is [s], or [ValueError]. *)
Definition UnitType_of_value (s : string) : result UnitType :=
  match find (fun t => String.eqb (UnitType_value t) s) UnitType_members with
  | Some t => Ok t
  | None => Raise (ValueError ("'" ++ s ++ "' is not a valid UnitType"))
  end.

(** [str] of an integer: its decimal numeral, with a minus sign when
    negative. *)
Definition int_str (n : Z) : string := NilZero.string_of_int (Z.to_int n).

(** [s.split(sep)] for a separator of one character. *)
Fixpoint split (sep : ascii) (s : string) : list string :=
  match s with
  | EmptyString => [EmptyString]
  | String c s' =>
      if Ascii.eqb c sep then EmptyString :: split sep s'
      else match split sep s' with
           | part :: parts => String c part :: parts
           | [] => [String c EmptyString]
           end
  end.

(** [sep.join(parts)]. *)
Fixpoint join (sep : string) (parts : list string) : string :=
  match parts with
  | [] => EmptyString
  | [part] => part
  | part :: rest => (part ++ sep ++ join sep rest)%string
  end.

(** The newline character. *)
Definition nl : string := String (ascii_of_nat 10) EmptyString.

(** [Unit.__str__]. *)
Definition Unit_str (self : Unit) : string :=
  (UnitType_value (unit_type self) ++ "#" ++ int_str (count self))%string.

(** [Battle.__str__]. *)
Definition Battle_str (self : Battle.t) : string :=
  (Unit_str (Battle.attacker self) ++ " vs " ++ Unit_str (Battle.defender self)
   ++ " -> " ++ BattleOutcome_value (Battle.outcome self))%string.

(** [Army.__str__]. *)
Definition Army_str (self : Army) : string :=
  join ";" (map Unit_str (_platoons self)).

(** ** PlatoonParser

    [int] is the built-in reader of integers; the parser is stated over any
    reader, and what a statement needs of it is a hypothesis there. *)

Module PlatoonParser.
Section Parser.

Variable int : string -> result Z.

(** The body of the loop: unpack the two parts of [split('#')], look the
    type up, read the count, build the unit. *)
Definition parse_platoon (platoon_data : string) : result Unit :=
  match split "#" platoon_data with
  | [unit_type_str; count_str] =>
      unit_type <- UnitType_of_value unit_type_str ;;
      n <- int count_str ;;
      UnitFactory.create_unit unit_type n
  | [] | [_] =>
      Raise (ValueError "not enough values to unpack (expected 2, got 1)")
  | _ => Raise (ValueError "too many values to unpack (expected 2)")
  end.

(** The [for] loop over the parts of [split(';')], appending to
    [platoons]. *)
Fixpoint parse_loop (parts : list string) (platoons : list Unit)
  : result (list Unit) :=
  match parts with
  | [] => Ok platoons
  | platoon_data :: rest =>
      unit <- parse_platoon platoon_data ;;
      parse_loop rest (platoons ++ [unit])
  end.

Definition parse_army (platoon_string : string) : result Army :=
  platoons <- parse_loop (split ";" platoon_string) [] ;;
  Ok (mkArmy platoons).

End Parser.
End PlatoonParser.

(** A reader of plain decimal numerals, one of the readers [int] can stand
    for. *)
Definition int_decimal (s : string) : result Z :=
  match NilZero.int_of_string s with
  | Some d => Ok (Z.of_int d)
  | None => Raise (ValueError ("invalid literal for int() with base 10: '" ++ s ++ "'"))
  end.

(** ** BattleReporter *)

Module BattleReporter.

(** The loop of [print_detailed_report]: [i] numbers the battles, [wins]
    is the tally so far, [out] what has been printed. *)
Fixpoint report_loop (i wins : Z) (battles : list Battle.t) (out : list string)
  : Z * list string :=
  match battles with
  | [] => (wins, out)
  | battle :: rest =>
      let out := out ++ [("Battle " ++ int_str i ++ ": " ++ Battle_str battle)%string] in
      let wins :=
        if BattleOutcome_eqb (Battle.outcome battle) WIN then wins + 1
        else wins in
      report_loop (i + 1) wins rest out
  end.

Definition print_detailed_report (arrangement : Army) (battles : list Battle.t)
  : list string :=
  let out := [ "Winning arrangement found:"%string;
               Army_str arrangement;
               (nl ++ "Battle details:")%string ] in
  let '(wins, out) := report_loop 1 0 battles out in
  out ++ [(nl ++ "Result: " ++ int_str wins ++ "/"
              ++ int_str (Z.of_nat (length battles)) ++ " battles won")%string].

Definition print_no_solution : list string :=
  ["There is no chance of winning"%string].

End BattleReporter.

(** ** AgeOfWarGame *)

Module AgeOfWarGame.
Section Game.

Variable int : string -> result Z.

(** What the [try] block computes before it reports. *)
Definition attempt (attacking_army_str defending_army_str : string)
  : result (WarSimulation.t * option Army) :=
  attacking_army <- PlatoonParser.parse_army int attacking_army_str ;;
  defending_army <- PlatoonParser.parse_army int defending_army_str ;;
  simulation <- WarSimulation.init attacking_army defending_army ;;
  Ok (simulation, WarSimulation.find_winning_arrangement simulation).

(** [solve_war_scenario]: the string returned and the texts printed.  An
    [Army] object is always true, so the report branch is taken exactly
    when the search returned one. *)
Definition solve_war_scenario (attacking_army_str defending_army_str : string)
  : string * list string :=
  match attempt attacking_army_str defending_army_str with
  | Ok (simulation, Some winning_arrangement) =>
      let battles :=
        WarSimulation.get_battle_report simulation winning_arrangement in
      (Army_str winning_arrangement,
       BattleReporter.print_detailed_report winning_arrangement battles)
  | Ok (_, None) =>
      ("There is no chance of winning"%string,
       BattleReporter.print_no_solution)
  | Raise (ValueError e) =>
      let error_msg := ("Error processing input: " ++ e)%string in
      (error_msg, [error_msg])
  end.

End Game.
End AgeOfWarGame.

(** ** More vocabulary *)

(** Whether a character occurs in a string. *)
Fixpoint occurs (c : ascii) (s : string) : bool :=
  match s with
  | EmptyString => false
  | String c' s' => Ascii.eqb c' c || occurs c s'
  end.

(** How often a character occurs in a string. *)
Fixpoint occurrences (c : ascii) (s : string) : nat :=
  match s with
  | EmptyString => O
  | String c' s' =>
      ((if Ascii.eqb c' c then 1 else 0) + occurrences c s')%nat
  end.

(** Outcomes from worst to best for the attacker. *)
Definition rank (o : BattleOutcome) : Z :=
  match o with
  | LOSS => 0
  | DRAW => 1
  | WIN => 2
  end.

(** * Properties *)

(** ** The unit catalogue *)

Lemma UnitType_eqb_eq (a b : UnitType) : UnitType_eqb a b = true <-> a = b.
Proof. destruct a, b; simpl; split; intro H; congruence. Qed.

Lemma beats_has_advantage_over (a b : Unit) :
  has_advantage_over a b = beats (unit_type a) (unit_type b).
Proof. reflexivity. Qed.

Lemma beats_asymmetric (a b : UnitType) : beats a b && beats b a = false.
Proof. destruct a, b; reflexivity. Qed.

(** C5.  The advantage relation is asymmetric: no two units have the
    advantage over each other, and likewise for [beats] on their kinds. *)
Theorem advantage_asymmetric :
  (forall a b : Unit, has_advantage_over a b && has_advantage_over b a = false)
  /\ (forall k1 k2 : UnitType, beats k1 k2 && beats k2 k1 = false).
Proof.
  split.
  - intros a b. rewrite !beats_has_advantage_over. apply beats_asymmetric.
  - exact beats_asymmetric.
Qed.

(** ** The battle evaluator *)

Lemma outcome_init (a d : Unit) :
  Battle.outcome (Battle.init a d) = Battle._calculate_outcome a d.
Proof. reflexivity. Qed.

Lemma outcome_by_effective (a d : Unit) :
  let e := Battle._get_effective_count a d in
  (count d < e -> Battle._calculate_outcome a d = WIN)
  /\ (e = count d -> Battle._calculate_outcome a d = DRAW)
  /\ (e < count d -> Battle._calculate_outcome a d = LOSS).
Proof.
  cbv zeta. unfold Battle._calculate_outcome.
  set (e := Battle._get_effective_count a d).
  destruct (Z.gtb_spec e (count d)) as [Hgt | Hle].
  - repeat split; intro; try reflexivity; lia.
  - destruct (Z.eqb_spec e (count d)) as [Heq | Hne];
      repeat split; intro; try reflexivity; lia.
Qed.

(** C1.  For non-negative counts the battle of (k1, c1) against (k2, c2) is
    decided by the effective attacker count: c1 * 2 when k1 beats k2, the
    floor of c1 / 2 when k2 beats k1, c1 otherwise; Win when it exceeds c2,
    Draw when it equals c2, Loss when it is below. *)
Theorem battle_outcome_spec (k1 k2 : UnitType) (c1 c2 : Z) :
  0 <= c1 -> 0 <= c2 ->
  exists e : Z,
    (beats k1 k2 = true -> e = c1 * 2)
    /\ (beats k1 k2 = false -> beats k2 k1 = true ->
        e = c1 / 2 /\ 2 * e <= c1 < 2 * e + 2)
    /\ (beats k1 k2 = false -> beats k2 k1 = false -> e = c1)
    /\ (c2 < e -> Battle.outcome (Battle.init (mkUnit k1 c1) (mkUnit k2 c2)) = WIN)
    /\ (e = c2 -> Battle.outcome (Battle.init (mkUnit k1 c1) (mkUnit k2 c2)) = DRAW)
    /\ (e < c2 -> Battle.outcome (Battle.init (mkUnit k1 c1) (mkUnit k2 c2)) = LOSS).
Proof.
  intros _ _.
  exists (Battle._get_effective_count (mkUnit k1 c1) (mkUnit k2 c2)).
  rewrite outcome_init.
  pose proof (outcome_by_effective (mkUnit k1 c1) (mkUnit k2 c2)) as H.
  cbv zeta in H. simpl count in H.
  repeat match goal with |- _ /\ _ => split end; try (apply H).
  all: unfold Battle._get_effective_count, Battle.ADVANTAGE_MULTIPLIER;
    rewrite !beats_has_advantage_over; simpl unit_type; simpl count.
  - intros ->. reflexivity.
  - intros -> ->. split; [reflexivity |].
    pose proof (Z.mul_div_le c1 2). pose proof (Z.mul_succ_div_gt c1 2). lia.
  - intros -> ->. reflexivity.
Qed.

Lemma battle_outcome_spec_witness :
  exists e : Z,
    (beats SPEARMEN MILITIA = true -> e = 10 * 2)
    /\ (beats SPEARMEN MILITIA = false -> beats MILITIA SPEARMEN = true ->
        e = 10 / 2 /\ 2 * e <= 10 < 2 * e + 2)
    /\ (beats SPEARMEN MILITIA = false -> beats MILITIA SPEARMEN = false ->
        e = 10)
    /\ (30 < e ->
        Battle.outcome (Battle.init (mkUnit SPEARMEN 10) (mkUnit MILITIA 30)) = WIN)
    /\ (e = 30 ->
        Battle.outcome (Battle.init (mkUnit SPEARMEN 10) (mkUnit MILITIA 30)) = DRAW)
    /\ (e < 30 ->
        Battle.outcome (Battle.init (mkUnit SPEARMEN 10) (mkUnit MILITIA 30)) = LOSS).
Proof. apply (battle_outcome_spec SPEARMEN MILITIA 10 30); lia. Defined.

Lemma effective_count_zero (a d : Unit) :
  count a = 0 -> Battle._get_effective_count a d = 0.
Proof.
  intros Ha. unfold Battle._get_effective_count, Battle.ADVANTAGE_MULTIPLIER.
  rewrite Ha.
  destruct (has_advantage_over a d); [reflexivity |].
  destruct (has_advantage_over d a); reflexivity.
Qed.

Lemma effective_count_pos (a d : Unit) :
  1 <= count a ->
  (has_advantage_over d a = true /\ count a = 1
   /\ Battle._get_effective_count a d = 0)
  \/ (~ (has_advantage_over d a = true /\ count a = 1)
      /\ 0 < Battle._get_effective_count a d).
Proof.
  intros Ha. unfold Battle._get_effective_count, Battle.ADVANTAGE_MULTIPLIER.
  pose proof (beats_asymmetric (unit_type a) (unit_type d)) as Hasym.
  rewrite <- !beats_has_advantage_over in Hasym.
  destruct (has_advantage_over a d) eqn:Ead.
  - right. split.
    + intros [Hda _]. rewrite Hda in Hasym. discriminate.
    + lia.
  - destruct (has_advantage_over d a) eqn:Eda.
    + destruct (Z.eq_dec (count a) 1) as [H1 | H1].
      * left. rewrite H1. repeat split.
      * right. split; [intros [_ ?]; contradiction |].
        apply Z.div_str_pos. lia.
    + right. split; [intros [? _]; discriminate | lia].
Qed.

(** C7, counterexample.  A defender of count 0 whose kind has the advantage
    does not lose to an attacker of count 1: the halved count is 0 and the
    battle is a draw. *)
Lemma zero_count_defender_draws :
  count (mkUnit MILITIA 0) = 0
  /\ 1 <= count (mkUnit SPEARMEN 1)
  /\ Battle.outcome (Battle.init (mkUnit SPEARMEN 1) (mkUnit MILITIA 0)) = DRAW
  /\ Battle.outcome (Battle.init (mkUnit SPEARMEN 1) (mkUnit MILITIA 0)) <> WIN.
Proof.
  split; [reflexivity |]. split; [simpl; lia |].
  split; [reflexivity | discriminate].
Qed.

(** C7, amended.  With non-negative counts and one side at count 0: an
    attacker of count 0 loses to every defender of count at least 1; a
    defender of count 0 loses to every attacker of count at least 1, except
    when the defender's kind has the advantage and the attacker's count is
    exactly 1; and the battle is a draw exactly when both counts are 0 or in
    that exceptional case. *)
Theorem zero_count_confrontation (a d : Unit) :
  0 <= count a -> 0 <= count d -> count a = 0 \/ count d = 0 ->
  (count a = 0 -> 1 <= count d -> Battle.outcome (Battle.init a d) = LOSS)
  /\ (count d = 0 -> 1 <= count a ->
      ~ (has_advantage_over d a = true /\ count a = 1) ->
      Battle.outcome (Battle.init a d) = WIN)
  /\ (Battle.outcome (Battle.init a d) = DRAW <->
      (count a = 0 /\ count d = 0)
      \/ (count d = 0 /\ count a = 1 /\ has_advantage_over d a = true)).
Proof.
  intros Ha Hd Hz. rewrite outcome_init.
  destruct (outcome_by_effective a d) as (Hwin & Hdraw & Hloss).
  destruct (Z.eq_dec (count a) 0) as [Ha0 | Ha0].
  - pose proof (effective_count_zero a d Ha0) as He. rewrite He in *.
    destruct (Z.eq_dec (count d) 0) as [Hd0 | Hd0].
    + rewrite Hdraw by lia.
      split; [lia |]. split; [lia |]. split; auto.
    + rewrite Hloss by lia.
      split; [reflexivity |]. split; [lia |].
      split; [discriminate |]. intros [[_ ?] | [? _]]; contradiction.
  - assert (Hd0 : count d = 0) by (destruct Hz; [contradiction | assumption]).
    destruct (effective_count_pos a d) as [(Hda & H1 & He) | (Hn & He)];
      [lia | |].
    + rewrite Hdraw by lia.
      split; [lia |]. split; [intros _ _ Hc; exfalso; apply Hc; auto |].
      split; auto.
    + rewrite Hwin by lia.
      split; [lia |]. split; [reflexivity |].
      split; [discriminate |].
      intros [[? _] | (_ & H1 & Hda)]; [contradiction |].
      exfalso. apply Hn. auto.
Qed.

Lemma zero_count_confrontation_witness :
  (count (mkUnit MILITIA 0) = 0 -> 1 <= count (mkUnit SPEARMEN 4) ->
   Battle.outcome (Battle.init (mkUnit MILITIA 0) (mkUnit SPEARMEN 4)) = LOSS)
  /\ (count (mkUnit SPEARMEN 4) = 0 -> 1 <= count (mkUnit MILITIA 0) ->
      ~ (has_advantage_over (mkUnit SPEARMEN 4) (mkUnit MILITIA 0) = true
         /\ count (mkUnit MILITIA 0) = 1) ->
      Battle.outcome (Battle.init (mkUnit MILITIA 0) (mkUnit SPEARMEN 4)) = WIN)
  /\ (Battle.outcome (Battle.init (mkUnit MILITIA 0) (mkUnit SPEARMEN 4)) = DRAW <->
      (count (mkUnit MILITIA 0) = 0 /\ count (mkUnit SPEARMEN 4) = 0)
      \/ (count (mkUnit SPEARMEN 4) = 0 /\ count (mkUnit MILITIA 0) = 1
          /\ has_advantage_over (mkUnit SPEARMEN 4) (mkUnit MILITIA 0) = true)).
Proof.
  apply (zero_count_confrontation (mkUnit MILITIA 0) (mkUnit SPEARMEN 4));
    simpl; lia.
Defined.

(** ** The unit factory *)

(** C9, counterexample.  A negative count is not rejected: the factory
    returns a unit of count -5, and that unit fights (and here wins). *)
Lemma negative_count_accepted :
  UnitFactory.create_unit MILITIA (-5) = Ok (mkUnit MILITIA (-5))
  /\ Battle.outcome (Battle.init (mkUnit MILITIA (-5)) (mkUnit MILITIA (-7))) = WIN.
Proof. split; reflexivity. Qed.

(** C9, amended.  The factory validates nothing about the count: for each
    of the six unit types and every integer count, negative ones included,
    it returns a unit of that type with that count. *)
Theorem create_unit_total (ut : UnitType) (n : Z) :
  UnitFactory.create_unit ut n = Ok (mkUnit ut n).
Proof. destruct ut; reflexivity. Qed.

(** ** The enumeration of arrangements *)

Section Picks.

Context {A : Type}.

Lemma picks_split (l1 l2 : list A) (x : A) :
  In (x, l1 ++ l2) (itertools.picks (l1 ++ x :: l2)).
Proof.
  induction l1 as [| y l1 IH]; simpl.
  - left. reflexivity.
  - right. apply in_map_iff. exists (x, l1 ++ l2). split; [reflexivity | exact IH].
Qed.

Lemma picks_Permutation (l : list A) (p : A * list A) :
  In p (itertools.picks l) -> Permutation (fst p :: snd p) l.
Proof.
  revert p. induction l as [| y l IH]; simpl; intros p Hin.
  - contradiction.
  - destruct Hin as [<- | Hin]; [reflexivity |].
    apply in_map_iff in Hin. destruct Hin as (q & <- & Hq). simpl.
    rewrite perm_swap. apply perm_skip. apply IH. exact Hq.
Qed.

Lemma picks_length (l : list A) (p : A * list A) :
  In p (itertools.picks l) -> length l = S (length (snd p)).
Proof.
  intros Hin. apply picks_Permutation in Hin.
  apply Permutation_length in Hin. simpl in Hin. congruence.
Qed.

(** Every tuple produced is a rearrangement of the whole pool. *)
Lemma permutations_r_sound (r : nat) :
  forall (l p : list A),
    length l = r -> In p (itertools.permutations_r r l) -> Permutation p l.
Proof.
  induction r as [| r IH]; simpl; intros l p Hlen Hin.
  - destruct l; [| discriminate]. destruct Hin as [<- | []]. constructor.
  - apply in_flat_map in Hin. destruct Hin as (q & Hq & Hin).
    apply in_map_iff in Hin. destruct Hin as (p' & <- & Hp').
    rewrite <- (picks_Permutation l q Hq). apply perm_skip.
    apply IH; [| exact Hp'].
    apply picks_length in Hq. congruence.
Qed.

(** Every rearrangement of the pool is produced. *)
Lemma permutations_r_complete (r : nat) :
  forall (l p : list A),
    length l = r -> Permutation p l -> In p (itertools.permutations_r r l).
Proof.
  induction r as [| r IH]; simpl; intros l p Hlen Hperm.
  - destruct l; [| discriminate].
    apply Permutation_sym, Permutation_nil in Hperm. left. congruence.
  - destruct p as [| x p'].
    + apply Permutation_length in Hperm. simpl in Hperm. congruence.
    + assert (Hx : In x l)
        by (eapply Permutation_in; [exact Hperm | left; reflexivity]).
      apply in_split in Hx. destruct Hx as (l1 & l2 & ->).
      apply Permutation_cons_app_inv in Hperm.
      apply in_flat_map. exists (x, l1 ++ l2). split; [apply picks_split |].
      simpl. apply in_map. apply IH; [| exact Hperm].
      rewrite length_app in *. simpl in Hlen. lia.
Qed.

Lemma permutations_sound (l p : list A) :
  In p (itertools.permutations l) -> Permutation p l.
Proof. apply permutations_r_sound. reflexivity. Qed.

Lemma permutations_complete (l p : list A) :
  Permutation p l -> In p (itertools.permutations l).
Proof. apply permutations_r_complete. reflexivity. Qed.

End Picks.

Section PicksMap.

Context {A B : Type} (f : A -> B).

Lemma picks_map (l : list A) :
  itertools.picks (map f l)
  = map (fun p => (f (fst p), map f (snd p))) (itertools.picks l).
Proof.
  induction l as [| x l IH]; simpl; [reflexivity |].
  f_equal. rewrite IH, !map_map. reflexivity.
Qed.

(** The enumeration looks at positions only: relabelling the elements
    relabels every tuple and keeps the order of the tuples. *)
Lemma permutations_r_map (r : nat) :
  forall l : list A,
    itertools.permutations_r r (map f l)
    = map (map f) (itertools.permutations_r r l).
Proof.
  induction r as [| r IH]; simpl; intros l; [reflexivity |].
  rewrite picks_map. rewrite !flat_map_concat_map, concat_map, !map_map.
  f_equal. apply map_ext. intros p. simpl.
  rewrite IH, !map_map. reflexivity.
Qed.

End PicksMap.

Lemma at_positions_seq {A : Type} (d : A) (l : list A) :
  at_positions d l (seq 0 (length l)) = l.
Proof.
  unfold at_positions.
  apply nth_ext with (d := d) (d' := d).
  - rewrite length_map, length_seq. reflexivity.
  - intros n Hn. rewrite length_map, length_seq in Hn.
    rewrite (nth_indep _ d (nth 0 l d))
      by (rewrite length_map, length_seq; exact Hn).
    rewrite (map_nth (fun i => nth i l d) (seq 0 (length l)) 0%nat n).
    rewrite seq_nth by exact Hn. reflexivity.
Qed.

(** The arrangements of a pool are the tuples read off at the permutations
    of its positions, in the order in which those are enumerated. *)
Lemma permutations_by_position {A : Type} (d : A) (l : list A) :
  itertools.permutations l
  = map (at_positions d l) (itertools.permutations (seq 0 (length l))).
Proof.
  unfold itertools.permutations. rewrite length_seq.
  rewrite <- (permutations_r_map (fun i => nth i l d)).
  fold (at_positions d l (seq 0 (length l))).
  rewrite at_positions_seq. reflexivity.
Qed.

(** ** The enumeration order *)

Section SortedLists.

Context {A : Type} (R : A -> A -> Prop).

Lemma StronglySorted_app (l1 l2 : list A) :
  StronglySorted R l1 -> StronglySorted R l2 ->
  (forall a b, In a l1 -> In b l2 -> R a b) ->
  StronglySorted R (l1 ++ l2).
Proof.
  induction l1 as [| x l1 IH]; simpl; intros H1 H2 H12; [exact H2 |].
  apply StronglySorted_inv in H1. destruct H1 as [H1 Hx].
  constructor.
  - apply IH; auto.
  - apply Forall_app. split; [exact Hx |].
    apply Forall_forall. intros b Hb. apply H12; auto.
Qed.

Lemma StronglySorted_middle (l1 l2 : list A) (x : A) :
  StronglySorted R (l1 ++ x :: l2) -> Forall (R x) l2.
Proof.
  induction l1 as [| y l1 IH]; simpl; intros H;
    apply StronglySorted_inv in H; destruct H as [H Hy]; auto.
Qed.

End SortedLists.

Lemma StronglySorted_map {A B : Type}
      (R : A -> A -> Prop) (S : B -> B -> Prop) (g : A -> B) (xs : list A) :
  (forall a b, R a b -> S (g a) (g b)) ->
  StronglySorted R xs -> StronglySorted S (map g xs).
Proof.
  intros Hg Hxs.
  induction Hxs as [| x xs Hxs IH Hx]; simpl; constructor; [exact IH |].
  rewrite Forall_map. eapply Forall_impl; [| exact Hx].
  intros a. apply Hg.
Qed.

Lemma StronglySorted_flat_map {A B : Type}
      (R : A -> A -> Prop) (S : B -> B -> Prop) (f : A -> list B) (xs : list A) :
  StronglySorted R xs ->
  (forall x, In x xs -> StronglySorted S (f x)) ->
  (forall x y a b, R x y -> In a (f x) -> In b (f y) -> S a b) ->
  StronglySorted S (flat_map f xs).
Proof.
  intros Hxs Hin Hacross.
  induction Hxs as [| x xs Hxs IH Hx]; simpl; [constructor |].
  apply StronglySorted_app.
  - apply Hin. left. reflexivity.
  - apply IH. intros y Hy. apply Hin. right. exact Hy.
  - intros a b Ha Hb. apply in_flat_map in Hb. destruct Hb as (y & Hy & Hb).
    rewrite Forall_forall in Hx. eapply Hacross; eauto.
Qed.

Lemma lex_lt_head (x y : nat) (xs ys : list nat) :
  (x < y)%nat -> lex_lt (x :: xs) (y :: ys).
Proof.
  intros H. unfold lex_lt. simpl.
  apply Nat.ltb_lt in H. rewrite H. reflexivity.
Qed.

Lemma lex_lt_tail (x : nat) (xs ys : list nat) :
  lex_lt xs ys -> lex_lt (x :: xs) (x :: ys).
Proof.
  unfold lex_lt. simpl. intros ->.
  rewrite Nat.eqb_refl. apply orb_true_r.
Qed.

Lemma lex_lt_irrefl (xs : list nat) : ~ lex_lt xs xs.
Proof.
  unfold lex_lt. induction xs as [| x xs IH]; simpl; [discriminate |].
  rewrite Nat.ltb_irrefl, Nat.eqb_refl. simpl. exact IH.
Qed.

Lemma picks_sorted (l : list nat) :
  StronglySorted lt l ->
  StronglySorted (fun p q => (fst p < fst q)%nat) (itertools.picks l)
  /\ Forall (fun p => StronglySorted lt (snd p)) (itertools.picks l).
Proof.
  induction l as [| x l IH]; simpl; intros Hl.
  - split; constructor.
  - apply StronglySorted_inv in Hl. destruct Hl as [Hl Hx].
    destruct (IH Hl) as [IH1 IH2]. split.
    + constructor.
      * eapply StronglySorted_map; [| exact IH1]. intros p q Hpq. exact Hpq.
      * rewrite Forall_map. simpl.
        apply Forall_forall. intros p Hp.
        apply picks_Permutation in Hp.
        rewrite Forall_forall in Hx. apply Hx.
        eapply Permutation_in; [exact Hp | left; reflexivity].
    + constructor; [exact Hl |].
      rewrite Forall_map. simpl.
      apply Forall_forall. intros p Hp.
      constructor.
      * rewrite Forall_forall in IH2. apply IH2. exact Hp.
      * apply Forall_forall. intros y Hy.
        apply picks_Permutation in Hp.
        rewrite Forall_forall in Hx. apply Hx.
        eapply Permutation_in; [exact Hp | right; exact Hy].
Qed.

(** Over an increasing pool the tuples come out in strictly increasing
    lexicographic order. *)
Lemma permutations_r_sorted (r : nat) :
  forall l : list nat,
    StronglySorted lt l ->
    StronglySorted lex_lt (itertools.permutations_r r l).
Proof.
  induction r as [| r IH]; simpl; intros l Hl.
  - constructor; constructor.
  - destruct (picks_sorted l Hl) as [H1 H2].
    eapply StronglySorted_flat_map; [exact H1 | |].
    + intros p Hp. rewrite Forall_forall in H2.
      eapply StronglySorted_map; [| exact (IH (snd p) (H2 p Hp))].
      intros a b. apply lex_lt_tail.
    + intros p q a b Hpq Ha Hb.
      apply in_map_iff in Ha. destruct Ha as (a' & <- & _).
      apply in_map_iff in Hb. destruct Hb as (b' & <- & _).
      apply lex_lt_head. exact Hpq.
Qed.

Lemma seq_sorted (len start : nat) : StronglySorted lt (seq start len).
Proof.
  revert start. induction len as [| len IH]; simpl; intros start.
  - constructor.
  - constructor; [apply IH |].
    apply Forall_forall. intros x Hx. apply in_seq in Hx. lia.
Qed.

Lemma position_permutations_sorted (n : nat) :
  StronglySorted lex_lt (itertools.permutations (seq 0 n)).
Proof. apply permutations_r_sorted, seq_sorted. Qed.

(** ** The search loop *)

Lemma fold_left_add_ones {A : Type} (l : list A) (acc : Z) :
  fold_left Z.add (map (fun _ => 1) l) acc = acc + Z.of_nat (length l).
Proof.
  revert acc. induction l as [| x l IH]; intros acc.
  - simpl. lia.
  - cbn [map fold_left length]. rewrite IH. lia.
Qed.

Lemma sum_ones {A : Type} (l : list A) :
  sum (map (fun _ => 1) l) = Z.of_nat (length l).
Proof. unfold sum. rewrite fold_left_add_ones. lia. Qed.

Lemma outcomes_simulate_battles (atk def : list Unit) :
  map Battle.outcome (WarSimulation._simulate_battles atk def)
  = pairwise_outcomes atk def.
Proof.
  unfold WarSimulation._simulate_battles, pairwise_outcomes.
  rewrite map_map. reflexivity.
Qed.

Lemma wins_map_outcome (battles : list Battle.t) :
  wins (map Battle.outcome battles)
  = length (filter (fun b => BattleOutcome_eqb (Battle.outcome b) WIN) battles).
Proof.
  unfold wins. induction battles as [| b bs IH]; simpl; [reflexivity |].
  destruct (BattleOutcome_eqb (Battle.outcome b) WIN); simpl; congruence.
Qed.

(** The test of the loop is the threshold on the number of wins. *)
Lemma is_winning_arrangement_qualifies (atk def : list Unit) :
  WarSimulation._is_winning_arrangement (WarSimulation._simulate_battles atk def)
  = qualifies atk def.
Proof.
  unfold WarSimulation._is_winning_arrangement, qualifies,
    WarSimulation.REQUIRED_WINS.
  rewrite sum_ones, <- outcomes_simulate_battles, wins_map_outcome.
  set (n := length _).
  rewrite Z.geb_leb.
  destruct (Nat.leb_spec 3 n); [apply Z.leb_le | apply Z.leb_gt]; lia.
Qed.

Lemma qualifies_true (atk def : list Unit) :
  qualifies atk def = true <-> (3 <= wins (pairwise_outcomes atk def))%nat.
Proof. unfold qualifies. apply Nat.leb_le. Qed.

Lemma qualifies_false (atk def : list Unit) :
  qualifies atk def = false <-> (wins (pairwise_outcomes atk def) < 3)%nat.
Proof. unfold qualifies. apply Nat.leb_gt. Qed.

Lemma wins_le_length (os : list BattleOutcome) : (wins os <= length os)%nat.
Proof. unfold wins. apply filter_length_le. Qed.

Lemma length_pairwise_outcomes (atk def : list Unit) :
  length (pairwise_outcomes atk def) = Nat.min (length atk) (length def).
Proof. unfold pairwise_outcomes. rewrite length_map. apply length_combine. Qed.

(** The loop returns the first arrangement that qualifies and looks at
    nothing after it. *)
Lemma search_Some (def : list Unit) (arrangements : list (list Unit)) (arr : Army) :
  WarSimulation.search def arrangements = Some arr ->
  exists pre post,
    arrangements = pre ++ platoons arr :: post
    /\ Forall (fun p => qualifies p def = false) pre
    /\ qualifies (platoons arr) def = true.
Proof.
  induction arrangements as [| p ps IH]; simpl; [discriminate |].
  rewrite is_winning_arrangement_qualifies.
  destruct (qualifies p def) eqn:Hq.
  - intros [= <-]. exists [], ps. simpl. auto.
  - intros Hs. destruct (IH Hs) as (pre & post & -> & Hpre & Harr).
    exists (p :: pre), post. simpl. auto.
Qed.

Lemma search_None (def : list Unit) (arrangements : list (list Unit)) :
  WarSimulation.search def arrangements = None <->
  Forall (fun p => qualifies p def = false) arrangements.
Proof.
  induction arrangements as [| p ps IH]; simpl.
  - split; auto.
  - rewrite is_winning_arrangement_qualifies.
    destruct (qualifies p def) eqn:Hq.
    + split; [discriminate |]. intros H. inversion H. congruence.
    + rewrite IH. split; [auto |]. intros H. inversion H. assumption.
Qed.

Lemma init_equal_counts (a d : Army) :
  get_platoon_count a = get_platoon_count d ->
  WarSimulation.init a d = Ok (WarSimulation.mk a d).
Proof.
  intros H. unfold WarSimulation.init, WarSimulation._validate_armies. simpl.
  rewrite H, Nat.eqb_refl. reflexivity.
Qed.

Lemma init_unequal_counts (a d : Army) :
  get_platoon_count a <> get_platoon_count d ->
  WarSimulation.init a d
  = Raise (ValueError "Armies must have the same number of platoons").
Proof.
  intros H. unfold WarSimulation.init, WarSimulation._validate_armies. simpl.
  apply Nat.eqb_neq in H. rewrite H. reflexivity.
Qed.

(** ** The arrangement search *)

Lemma find_winning_arrangement_Some (a d arr : Army) :
  WarSimulation.find_winning_arrangement (WarSimulation.mk a d) = Some arr ->
  Permutation (platoons arr) (platoons a)
  /\ qualifies (platoons arr) (platoons d) = true.
Proof.
  unfold WarSimulation.find_winning_arrangement. simpl. intros Hs.
  destruct (search_Some _ _ _ Hs) as (pre & post & Hsplit & _ & Hq).
  split; [| exact Hq].
  apply permutations_sound. rewrite Hsplit.
  apply in_or_app. right. left. reflexivity.
Qed.

(** C2.  On armies of equal length the simulation is constructed and the
    search returns either nothing or an army that is a rearrangement of the
    attackers and that, paired position by position with the defenders in
    their fixed order (every position paired), wins at least three
    battles. *)
Theorem find_winning_arrangement_sound (a d : Army) :
  get_platoon_count a = get_platoon_count d ->
  exists sim,
    WarSimulation.init a d = Ok sim
    /\ (WarSimulation.find_winning_arrangement sim = None
        \/ exists arr,
             WarSimulation.find_winning_arrangement sim = Some arr
             /\ Permutation (platoons arr) (platoons a)
             /\ length (pairwise_outcomes (platoons arr) (platoons d))
                = get_platoon_count d
             /\ (3 <= wins (pairwise_outcomes (platoons arr) (platoons d)))%nat).
Proof.
  intros Hlen. exists (WarSimulation.mk a d).
  split; [apply init_equal_counts; exact Hlen |].
  destruct (WarSimulation.find_winning_arrangement (WarSimulation.mk a d))
    as [arr |] eqn:Hs; [right | left; reflexivity].
  exists arr. split; [reflexivity |].
  destruct (find_winning_arrangement_Some a d arr Hs) as [Hperm Hq].
  split; [exact Hperm |]. split; [| apply qualifies_true; exact Hq].
  rewrite length_pairwise_outcomes. apply Permutation_length in Hperm.
  unfold get_platoon_count, platoons in *. lia.
Qed.

Lemma find_winning_arrangement_sound_witness :
  exists sim,
    WarSimulation.init sample_attackers sample_defenders = Ok sim
    /\ (WarSimulation.find_winning_arrangement sim = None
        \/ exists arr,
             WarSimulation.find_winning_arrangement sim = Some arr
             /\ Permutation (platoons arr) (platoons sample_attackers)
             /\ length (pairwise_outcomes (platoons arr) (platoons sample_defenders))
                = get_platoon_count sample_defenders
             /\ (3 <= wins (pairwise_outcomes (platoons arr)
                                              (platoons sample_defenders)))%nat).
Proof.
  apply (find_winning_arrangement_sound sample_attackers sample_defenders).
  reflexivity.
Defined.

(** C3.  On armies of equal length the search returns nothing only when no
    rearrangement of the attackers, paired position by position with the
    defenders, reaches three wins. *)
Theorem find_winning_arrangement_exhaustive (a d : Army) (p : list Unit) :
  get_platoon_count a = get_platoon_count d ->
  WarSimulation.find_winning_arrangement (WarSimulation.mk a d) = None ->
  Permutation p (platoons a) ->
  (wins (pairwise_outcomes p (platoons d)) < 3)%nat.
Proof.
  intros _ Hnone Hperm.
  unfold WarSimulation.find_winning_arrangement in Hnone. simpl in Hnone.
  apply search_None in Hnone. rewrite Forall_forall in Hnone.
  apply qualifies_false. apply Hnone.
  apply permutations_complete. exact Hperm.
Qed.

Lemma find_winning_arrangement_exhaustive_witness :
  (wins (pairwise_outcomes
           [mkUnit SPEARMEN 4; mkUnit MILITIA 9; mkUnit MILITIA 9]
           (platoons (mkArmy [mkUnit MILITIA 5; mkUnit MILITIA 5;
                              mkUnit FOOT_ARCHER 6]))) < 3)%nat.
Proof.
  apply (find_winning_arrangement_exhaustive
           (mkArmy [mkUnit MILITIA 9; mkUnit SPEARMEN 4; mkUnit MILITIA 9])
           (mkArmy [mkUnit MILITIA 5; mkUnit MILITIA 5; mkUnit FOOT_ARCHER 6])).
  - reflexivity.
  - vm_compute. reflexivity.
  - simpl. apply perm_swap.
Defined.

(** C10.  Two armies of equal length with fewer than three platoons each,
    two empty armies included, never yield an arrangement: the simulation
    is constructed and the search returns nothing. *)
Theorem small_armies_never_win (a d : Army) :
  get_platoon_count a = get_platoon_count d ->
  (get_platoon_count a < 3)%nat ->
  simulate_war a d = Ok None.
Proof.
  intros Hlen Hsmall. unfold simulate_war.
  rewrite (init_equal_counts a d Hlen). simpl. f_equal.
  unfold WarSimulation.find_winning_arrangement. simpl.
  apply search_None. apply Forall_forall. intros p Hp.
  apply permutations_sound, Permutation_length in Hp.
  apply qualifies_false.
  pose proof (wins_le_length (pairwise_outcomes p (platoons d))) as Hw.
  rewrite length_pairwise_outcomes in Hw.
  unfold get_platoon_count, platoons in *. lia.
Qed.

Lemma small_armies_never_win_witness :
  simulate_war (mkArmy [mkUnit HEAVY_CAVALRY 100; mkUnit MILITIA 50])
               (mkArmy [mkUnit MILITIA 1; mkUnit SPEARMEN 1])
  = Ok None.
Proof.
  apply (small_armies_never_win
           (mkArmy [mkUnit HEAVY_CAVALRY 100; mkUnit MILITIA 50])
           (mkArmy [mkUnit MILITIA 1; mkUnit SPEARMEN 1])).
  - reflexivity.
  - unfold get_platoon_count. simpl. lia.
Defined.

(** C6.  For armies whose platoon counts differ the constructor raises, so
    no simulation exists and no search is run; the outcome of construct
    then search is that error and not the absence value. *)
Theorem unequal_armies_rejected (a d : Army) :
  get_platoon_count a <> get_platoon_count d ->
  WarSimulation.init a d
  = Raise (ValueError "Armies must have the same number of platoons")
  /\ simulate_war a d
     = Raise (ValueError "Armies must have the same number of platoons")
  /\ simulate_war a d <> Ok None.
Proof.
  intros Hne. unfold simulate_war.
  rewrite (init_unequal_counts a d Hne). simpl.
  repeat split. discriminate.
Qed.

Lemma unequal_armies_rejected_witness :
  WarSimulation.init
    (mkArmy [mkUnit MILITIA 9; mkUnit MILITIA 9; mkUnit MILITIA 9])
    (mkArmy [mkUnit MILITIA 1; mkUnit MILITIA 1])
  = Raise (ValueError "Armies must have the same number of platoons")
  /\ simulate_war
       (mkArmy [mkUnit MILITIA 9; mkUnit MILITIA 9; mkUnit MILITIA 9])
       (mkArmy [mkUnit MILITIA 1; mkUnit MILITIA 1])
     = Raise (ValueError "Armies must have the same number of platoons")
  /\ simulate_war
       (mkArmy [mkUnit MILITIA 9; mkUnit MILITIA 9; mkUnit MILITIA 9])
       (mkArmy [mkUnit MILITIA 1; mkUnit MILITIA 1])
     <> Ok None.
Proof.
  apply (unequal_armies_rejected
           (mkArmy [mkUnit MILITIA 9; mkUnit MILITIA 9; mkUnit MILITIA 9])
           (mkArmy [mkUnit MILITIA 1; mkUnit MILITIA 1])).
  unfold get_platoon_count. simpl. lia.
Defined.

(** C4.  A returned arrangement is the first qualifying one of the
    enumeration: everything enumerated before it fails the threshold, and it
    is read off the attackers at the lexicographically least permutation of
    their positions whose arrangement qualifies.  The result is a function
    of the two armies, so repeated runs agree. *)
Theorem find_winning_arrangement_first (a d arr : Army) (d0 : Unit) :
  WarSimulation.find_winning_arrangement (WarSimulation.mk a d) = Some arr ->
  exists (idx : list nat) (pre post : list (list Unit)),
    Permutation idx (seq 0 (get_platoon_count a))
    /\ platoons arr = at_positions d0 (platoons a) idx
    /\ qualifies (platoons arr) (platoons d) = true
    /\ (forall idx' : list nat,
          Permutation idx' (seq 0 (get_platoon_count a)) ->
          qualifies (at_positions d0 (platoons a) idx') (platoons d) = true ->
          idx' = idx \/ lex_lt idx idx')
    /\ itertools.permutations (platoons a) = pre ++ platoons arr :: post
    /\ Forall (fun p => qualifies p (platoons d) = false) pre.
Proof.
  unfold WarSimulation.find_winning_arrangement. simpl. intros Hs.
  destruct (search_Some _ _ _ Hs) as (pre & post & Hsplit & Hpre & Hq).
  pose proof (permutations_by_position d0 (platoons a)) as Hpos.
  fold (get_platoon_count a) in Hpos. unfold platoons at 3 in Hpos.
  fold (get_platoon_count a) in Hpos.
  pose proof (position_permutations_sorted (get_platoon_count a)) as Hsorted.
  rewrite Hsplit in Hpos. symmetry in Hpos.
  apply map_eq_app in Hpos. destruct Hpos as (ipre & irest & Hidx & Hipre & Hirest).
  apply map_eq_cons in Hirest. destruct Hirest as (idx & ipost & -> & Harr & _).
  exists idx, pre, post.
  split.
  { apply permutations_sound. rewrite Hidx.
    apply in_or_app. right. left. reflexivity. }
  split; [symmetry; exact Harr |]. split; [exact Hq |].
  split; [| split; [exact Hsplit | exact Hpre]].
  intros idx' Hperm' Hq'.
  apply permutations_complete in Hperm'. rewrite Hidx in Hperm'.
  apply in_app_or in Hperm'. destruct Hperm' as [Hin | [Heq | Hin]].
  - exfalso. rewrite Forall_forall in Hpre.
    rewrite (Hpre (at_positions d0 (platoons a) idx')) in Hq'; [discriminate |].
    rewrite <- Hipre. apply in_map. exact Hin.
  - left. symmetry. exact Heq.
  - right. rewrite Hidx in Hsorted. apply StronglySorted_middle in Hsorted.
    rewrite Forall_forall in Hsorted. apply Hsorted. exact Hin.
Qed.

Lemma find_winning_arrangement_first_witness :
  exists (idx : list nat) (pre post : list (list Unit)),
    Permutation idx (seq 0 (get_platoon_count sample_attackers))
    /\ [ mkUnit SPEARMEN 10; mkUnit MILITIA 30; mkUnit FOOT_ARCHER 20;
         mkUnit HEAVY_CAVALRY 120; mkUnit LIGHT_CAVALRY 1000 ]
       = at_positions (mkUnit MILITIA 0) (platoons sample_attackers) idx
    /\ qualifies [ mkUnit SPEARMEN 10; mkUnit MILITIA 30; mkUnit FOOT_ARCHER 20;
                   mkUnit HEAVY_CAVALRY 120; mkUnit LIGHT_CAVALRY 1000 ]
                 (platoons sample_defenders) = true
    /\ (forall idx' : list nat,
          Permutation idx' (seq 0 (get_platoon_count sample_attackers)) ->
          qualifies (at_positions (mkUnit MILITIA 0) (platoons sample_attackers) idx')
                    (platoons sample_defenders) = true ->
          idx' = idx \/ lex_lt idx idx')
    /\ itertools.permutations (platoons sample_attackers)
       = pre ++ [ mkUnit SPEARMEN 10; mkUnit MILITIA 30; mkUnit FOOT_ARCHER 20;
                  mkUnit HEAVY_CAVALRY 120; mkUnit LIGHT_CAVALRY 1000 ] :: post
    /\ Forall (fun p => qualifies p (platoons sample_defenders) = false) pre.
Proof.
  apply (find_winning_arrangement_first
           sample_attackers sample_defenders
           (mkArmy [ mkUnit SPEARMEN 10; mkUnit MILITIA 30; mkUnit FOOT_ARCHER 20;
                     mkUnit HEAVY_CAVALRY 120; mkUnit LIGHT_CAVALRY 1000 ])
           (mkUnit MILITIA 0)).
  vm_compute. reflexivity.
Defined.

(** C8, counterexample.  The search hands back the army alone.  Against two
    different defending armies the same attackers yield the very same
    returned value although the per-position outcomes differ, so the
    outcome list is not part of what is returned. *)
Lemma arrangement_returned_alone :
  WarSimulation.find_winning_arrangement
    (WarSimulation.mk
       (mkArmy [mkUnit MILITIA 10; mkUnit MILITIA 10; mkUnit MILITIA 10;
                mkUnit MILITIA 10])
       (mkArmy [mkUnit MILITIA 1; mkUnit MILITIA 1; mkUnit MILITIA 1;
                mkUnit MILITIA 1]))
  = Some (mkArmy [mkUnit MILITIA 10; mkUnit MILITIA 10; mkUnit MILITIA 10;
                  mkUnit MILITIA 10])
  /\ WarSimulation.find_winning_arrangement
       (WarSimulation.mk
          (mkArmy [mkUnit MILITIA 10; mkUnit MILITIA 10; mkUnit MILITIA 10;
                   mkUnit MILITIA 10])
          (mkArmy [mkUnit MILITIA 1; mkUnit MILITIA 1; mkUnit MILITIA 1;
                   mkUnit MILITIA 10]))
     = Some (mkArmy [mkUnit MILITIA 10; mkUnit MILITIA 10; mkUnit MILITIA 10;
                     mkUnit MILITIA 10])
  /\ pairwise_outcomes
       [mkUnit MILITIA 10; mkUnit MILITIA 10; mkUnit MILITIA 10; mkUnit MILITIA 10]
       [mkUnit MILITIA 1; mkUnit MILITIA 1; mkUnit MILITIA 1; mkUnit MILITIA 1]
     = [WIN; WIN; WIN; WIN]
  /\ pairwise_outcomes
       [mkUnit MILITIA 10; mkUnit MILITIA 10; mkUnit MILITIA 10; mkUnit MILITIA 10]
       [mkUnit MILITIA 1; mkUnit MILITIA 1; mkUnit MILITIA 1; mkUnit MILITIA 10]
     = [WIN; WIN; WIN; DRAW].
Proof. repeat split; vm_compute; reflexivity. Qed.

(** C8, amended.  When the search on equal-length armies returns an
    arrangement, that army is all it returns; the per-position outcomes
    come from a separate call of [get_battle_report] on it, which yields one
    battle per position, the arrangement's platoons against the defenders
    in order, each with the evaluator's outcome, at least three of them
    wins. *)
Theorem battle_report_of_found_arrangement (a d arr : Army) :
  get_platoon_count a = get_platoon_count d ->
  WarSimulation.find_winning_arrangement (WarSimulation.mk a d) = Some arr ->
  let battles := WarSimulation.get_battle_report (WarSimulation.mk a d) arr in
  map Battle.attacker battles = platoons arr
  /\ map Battle.defender battles = platoons d
  /\ map Battle.outcome battles
     = pairwise_outcomes (platoons arr) (platoons d)
  /\ (3 <= wins (map Battle.outcome battles))%nat.
Proof.
  intros Hlen Hfind battles.
  destruct (find_winning_arrangement_Some a d arr Hfind) as [Hperm Hwins].
  apply qualifies_true in Hwins.
  assert (Hl : length (platoons arr) = length (platoons d)).
  { apply Permutation_length in Hperm.
    unfold get_platoon_count, platoons in *. congruence. }
  subst battles. unfold WarSimulation.get_battle_report. simpl.
  rewrite outcomes_simulate_battles.
  unfold WarSimulation._simulate_battles. rewrite !map_map. simpl.
  repeat split; [| | exact Hwins].
  - clear -Hl. revert Hl. generalize (platoons d) as ds.
    induction (platoons arr) as [| x xs IH]; intros [| y ys] Hl;
      simpl in *; try discriminate; [reflexivity |].
    f_equal. apply IH. congruence.
  - clear -Hl. revert Hl. generalize (platoons d) as ds.
    induction (platoons arr) as [| x xs IH]; intros [| y ys] Hl;
      simpl in *; try discriminate; [reflexivity |].
    f_equal. apply IH. congruence.
Qed.

Lemma battle_report_of_found_arrangement_witness :
  let battles :=
    WarSimulation.get_battle_report
      (WarSimulation.mk sample_attackers sample_defenders)
      (mkArmy [ mkUnit SPEARMEN 10; mkUnit MILITIA 30; mkUnit FOOT_ARCHER 20;
                mkUnit HEAVY_CAVALRY 120; mkUnit LIGHT_CAVALRY 1000 ]) in
  map Battle.attacker battles
  = platoons (mkArmy [ mkUnit SPEARMEN 10; mkUnit MILITIA 30; mkUnit FOOT_ARCHER 20;
                       mkUnit HEAVY_CAVALRY 120; mkUnit LIGHT_CAVALRY 1000 ])
  /\ map Battle.defender battles = platoons sample_defenders
  /\ map Battle.outcome battles
     = pairwise_outcomes
         (platoons (mkArmy [ mkUnit SPEARMEN 10; mkUnit MILITIA 30;
                             mkUnit FOOT_ARCHER 20; mkUnit HEAVY_CAVALRY 120;
                             mkUnit LIGHT_CAVALRY 1000 ]))
         (platoons sample_defenders)
  /\ (3 <= wins (map Battle.outcome battles))%nat.
Proof.
  apply (battle_report_of_found_arrangement sample_attackers sample_defenders).
  - reflexivity.
  - vm_compute. reflexivity.
Defined.


(** * Further properties of the code *)

(** ** Battles beyond the threshold rules *)

Lemma beats_irreflexive (k : UnitType) : beats k k = false.
Proof. destruct k; reflexivity. Qed.

Lemma effective_count_cases (a d : Unit) :
  (has_advantage_over a d = true /\ has_advantage_over d a = false
   /\ Battle._get_effective_count a d = count a * 2)
  \/ (has_advantage_over a d = false /\ has_advantage_over d a = true
      /\ Battle._get_effective_count a d = count a / 2)
  \/ (has_advantage_over a d = false /\ has_advantage_over d a = false
      /\ Battle._get_effective_count a d = count a).
Proof.
  unfold Battle._get_effective_count, Battle.ADVANTAGE_MULTIPLIER.
  pose proof (beats_asymmetric (unit_type a) (unit_type d)) as Hasym.
  rewrite <- !beats_has_advantage_over in Hasym.
  destruct (has_advantage_over a d), (has_advantage_over d a);
    try discriminate; auto.
Qed.

Lemma outcome_rank (a d : Unit) :
  let e := Battle._get_effective_count a d in
  (rank (Battle._calculate_outcome a d) = 2 /\ count d < e)
  \/ (rank (Battle._calculate_outcome a d) = 1 /\ e = count d)
  \/ (rank (Battle._calculate_outcome a d) = 0 /\ e < count d).
Proof.
  cbv zeta. destruct (outcome_by_effective a d) as (Hwin & Hdraw & Hloss).
  destruct (Z.lt_trichotomy (Battle._get_effective_count a d) (count d))
    as [Hlt | [Heq | Hgt]].
  - right. right. rewrite Hloss by exact Hlt. auto.
  - right. left. rewrite Hdraw by exact Heq. auto.
  - left. rewrite Hwin by exact Hgt. auto.
Qed.

(** X1.  Between two units of the same type no advantage applies: the
    battle is decided by the plain counts. *)
Theorem same_type_battle (a d : Unit) :
  unit_type a = unit_type d ->
  (count d < count a -> Battle.outcome (Battle.init a d) = WIN)
  /\ (count a = count d -> Battle.outcome (Battle.init a d) = DRAW)
  /\ (count a < count d -> Battle.outcome (Battle.init a d) = LOSS).
Proof.
  intros Ht. rewrite outcome_init.
  assert (He : Battle._get_effective_count a d = count a).
  { unfold Battle._get_effective_count.
    rewrite !beats_has_advantage_over, Ht, beats_irreflexive. reflexivity. }
  pose proof (outcome_by_effective a d) as H. cbv zeta in H.
  rewrite He in H. exact H.
Qed.

Lemma same_type_battle_witness :
  (count (mkUnit FOOT_ARCHER 1000) < count (mkUnit FOOT_ARCHER 20) ->
   Battle.outcome (Battle.init (mkUnit FOOT_ARCHER 20) (mkUnit FOOT_ARCHER 1000)) = WIN)
  /\ (count (mkUnit FOOT_ARCHER 20) = count (mkUnit FOOT_ARCHER 1000) ->
      Battle.outcome (Battle.init (mkUnit FOOT_ARCHER 20) (mkUnit FOOT_ARCHER 1000)) = DRAW)
  /\ (count (mkUnit FOOT_ARCHER 20) < count (mkUnit FOOT_ARCHER 1000) ->
      Battle.outcome (Battle.init (mkUnit FOOT_ARCHER 20) (mkUnit FOOT_ARCHER 1000)) = LOSS).
Proof.
  apply (same_type_battle (mkUnit FOOT_ARCHER 20) (mkUnit FOOT_ARCHER 1000)).
  reflexivity.
Defined.

(** X2.  A win is never mutual: when the attacker wins a battle, the same
    two units with the roles exchanged give a loss for the new attacker.
    This holds for all integer counts. *)
Theorem win_reversed_is_loss (a d : Unit) :
  Battle.outcome (Battle.init a d) = WIN ->
  Battle.outcome (Battle.init d a) = LOSS.
Proof.
  rewrite !outcome_init. intros Hwin.
  destruct (outcome_rank a d) as [[_ Hgt] | [[Hr _] | [Hr _]]];
    [| rewrite Hwin in Hr; discriminate | rewrite Hwin in Hr; discriminate].
  apply (outcome_by_effective d a).
  pose proof (Z.mul_div_le (count a) 2).
  pose proof (Z.mul_succ_div_gt (count a) 2).
  pose proof (Z.mul_div_le (count d) 2).
  pose proof (Z.mul_succ_div_gt (count d) 2).
  destruct (effective_count_cases a d) as [(Had & Hda & He) | [(Had & Hda & He) | (Had & Hda & He)]];
    destruct (effective_count_cases d a) as [(Hda' & Had' & He') | [(Hda' & Had' & He') | (Hda' & Had' & He')]];
    try congruence; lia.
Qed.

Lemma win_reversed_is_loss_witness :
  Battle.outcome (Battle.init (mkUnit SPEARMEN 10) (mkUnit MILITIA 30)) = LOSS.
Proof.
  apply (win_reversed_is_loss (mkUnit MILITIA 30) (mkUnit SPEARMEN 10)).
  reflexivity.
Defined.

Lemma calculate_outcome_monotone (a a' d d' : Unit) :
  unit_type a = unit_type a' -> unit_type d = unit_type d' ->
  count a <= count a' -> count d' <= count d ->
  rank (Battle._calculate_outcome a d) <= rank (Battle._calculate_outcome a' d').
Proof.
  intros Hta Htd Ha Hd.
  assert (He : Battle._get_effective_count a d
               <= Battle._get_effective_count a' d').
  { unfold Battle._get_effective_count, Battle.ADVANTAGE_MULTIPLIER.
    rewrite !beats_has_advantage_over, Hta, Htd.
    destruct (beats (unit_type a') (unit_type d')); [lia |].
    destruct (beats (unit_type d') (unit_type a')); [| lia].
    apply Z.div_le_mono; lia. }
  destruct (outcome_rank a d) as [[-> ?] | [[-> ?] | [-> ?]]];
    destruct (outcome_rank a' d') as [[-> ?] | [[-> ?] | [-> ?]]]; lia.
Qed.

(** X3.  More attackers and fewer defenders of the same types never make
    the outcome worse for the attacker (Loss below Draw below Win). *)
Theorem outcome_monotone (a a' d d' : Unit) :
  unit_type a = unit_type a' -> unit_type d = unit_type d' ->
  count a <= count a' -> count d' <= count d ->
  rank (Battle.outcome (Battle.init a d))
  <= rank (Battle.outcome (Battle.init a' d')).
Proof.
  intros Hta Htd Ha Hd. rewrite !outcome_init.
  apply calculate_outcome_monotone; assumption.
Qed.

Lemma outcome_monotone_witness :
  rank (Battle.outcome (Battle.init (mkUnit SPEARMEN 20) (mkUnit MILITIA 10)))
  <= rank (Battle.outcome (Battle.init (mkUnit SPEARMEN 21) (mkUnit MILITIA 9))).
Proof.
  apply (outcome_monotone (mkUnit SPEARMEN 20) (mkUnit SPEARMEN 21)
                          (mkUnit MILITIA 10) (mkUnit MILITIA 9));
    simpl; (reflexivity || lia).
Defined.

(** ** The search beyond the threshold rules *)

Lemma permutations_r_head {A : Type} (l : list A) :
  exists rest, itertools.permutations_r (length l) l = l :: rest.
Proof.
  induction l as [| x xs [rest IH]]; simpl.
  - exists []. reflexivity.
  - rewrite IH. simpl. eexists. reflexivity.
Qed.

(** The enumeration starts with the pool in its own order. *)
Lemma permutations_head {A : Type} (l : list A) :
  exists rest, itertools.permutations l = l :: rest.
Proof. apply permutations_r_head. Qed.

Lemma find_original_order (a d : Army) :
  qualifies (platoons a) (platoons d) = true ->
  WarSimulation.find_winning_arrangement (WarSimulation.mk a d) = Some a.
Proof.
  intros Hq. unfold WarSimulation.find_winning_arrangement. simpl.
  destruct (permutations_head (platoons a)) as [rest ->]. simpl.
  rewrite is_winning_arrangement_qualifies, Hq.
  destruct a. reflexivity.
Qed.

Lemma combine_firstn_l {A B : Type} (l : list A) (l' : list B) :
  combine (firstn (length l') l) l' = combine l l'.
Proof.
  revert l'. induction l as [| x l IH]; intros [| y l']; simpl;
    try reflexivity.
  f_equal. apply IH.
Qed.

(** X4.  An arrangement that already qualifies in the order given is
    returned as it is: the search changes the order of the attacking army
    only when the given order does not win. *)
Theorem winning_order_kept (a d : Army) :
  (3 <= wins (pairwise_outcomes (platoons a) (platoons d)))%nat ->
  WarSimulation.find_winning_arrangement (WarSimulation.mk a d) = Some a.
Proof. intros H. apply find_original_order, qualifies_true, H. Qed.

Lemma winning_order_kept_witness :
  WarSimulation.find_winning_arrangement
    (WarSimulation.mk
       (mkArmy [mkUnit MILITIA 30; mkUnit SPEARMEN 10; mkUnit HEAVY_CAVALRY 7;
                mkUnit FOOT_ARCHER 9])
       (mkArmy [mkUnit SPEARMEN 50; mkUnit MILITIA 90; mkUnit FOOT_ARCHER 13;
                mkUnit MILITIA 17]))
  = Some (mkArmy [mkUnit MILITIA 30; mkUnit SPEARMEN 10; mkUnit HEAVY_CAVALRY 7;
                  mkUnit FOOT_ARCHER 9]).
Proof.
  apply (winning_order_kept
           (mkArmy [mkUnit MILITIA 30; mkUnit SPEARMEN 10; mkUnit HEAVY_CAVALRY 7;
                    mkUnit FOOT_ARCHER 9])
           (mkArmy [mkUnit SPEARMEN 50; mkUnit MILITIA 90; mkUnit FOOT_ARCHER 13;
                    mkUnit MILITIA 17])).
  vm_compute. lia.
Defined.

(** X5.  The search is idempotent: searching again from a returned
    arrangement against the same defenders returns that arrangement. *)
Theorem search_idempotent (a d arr : Army) :
  WarSimulation.find_winning_arrangement (WarSimulation.mk a d) = Some arr ->
  WarSimulation.find_winning_arrangement (WarSimulation.mk arr d) = Some arr.
Proof.
  intros Hfind. apply find_original_order.
  apply (find_winning_arrangement_Some a d arr Hfind).
Qed.

Lemma search_idempotent_witness :
  WarSimulation.find_winning_arrangement
    (WarSimulation.mk
       (mkArmy [ mkUnit SPEARMEN 10; mkUnit MILITIA 30; mkUnit FOOT_ARCHER 20;
                 mkUnit HEAVY_CAVALRY 120; mkUnit LIGHT_CAVALRY 1000 ])
       sample_defenders)
  = Some (mkArmy [ mkUnit SPEARMEN 10; mkUnit MILITIA 30; mkUnit FOOT_ARCHER 20;
                   mkUnit HEAVY_CAVALRY 120; mkUnit LIGHT_CAVALRY 1000 ]).
Proof.
  apply (search_idempotent sample_attackers sample_defenders).
  vm_compute. reflexivity.
Defined.

(** X6.  Whether an arrangement is found does not depend on the order in
    which the attacking army is given: two attacking armies that are
    rearrangements of one another are both refused or both served. *)
Theorem winnability_order_independent (a a' d : Army) :
  Permutation (platoons a) (platoons a') ->
  WarSimulation.find_winning_arrangement (WarSimulation.mk a d) = None
  <-> WarSimulation.find_winning_arrangement (WarSimulation.mk a' d) = None.
Proof.
  intros Hperm. unfold WarSimulation.find_winning_arrangement. simpl.
  rewrite !search_None, !Forall_forall.
  split; intros H p Hp; apply H; apply permutations_complete;
    apply permutations_sound in Hp.
  - rewrite Hp. symmetry. exact Hperm.
  - rewrite Hp. exact Hperm.
Qed.

Lemma winnability_order_independent_witness :
  WarSimulation.find_winning_arrangement
    (WarSimulation.mk
       (mkArmy [mkUnit MILITIA 9; mkUnit SPEARMEN 4; mkUnit MILITIA 9])
       (mkArmy [mkUnit MILITIA 5; mkUnit MILITIA 5; mkUnit FOOT_ARCHER 6]))
  = None
  <-> WarSimulation.find_winning_arrangement
        (WarSimulation.mk
           (mkArmy [mkUnit SPEARMEN 4; mkUnit MILITIA 9; mkUnit MILITIA 9])
           (mkArmy [mkUnit MILITIA 5; mkUnit MILITIA 5; mkUnit FOOT_ARCHER 6]))
      = None.
Proof.
  apply (winnability_order_independent
           (mkArmy [mkUnit MILITIA 9; mkUnit SPEARMEN 4; mkUnit MILITIA 9])
           (mkArmy [mkUnit SPEARMEN 4; mkUnit MILITIA 9; mkUnit MILITIA 9])).
  simpl. apply perm_swap.
Defined.

(** X7.  [get_battle_report] checks nothing about the arrangement it is
    given: it pairs as many platoons as the shorter side has and ignores
    what the arrangement has beyond the defenders' length. *)
Theorem battle_report_truncates (sim : WarSimulation.t) (arr : Army) :
  length (WarSimulation.get_battle_report sim arr)
  = Nat.min (get_platoon_count arr)
            (get_platoon_count (WarSimulation._defending_army sim))
  /\ WarSimulation.get_battle_report sim arr
     = WarSimulation.get_battle_report sim
         (mkArmy (firstn (get_platoon_count (WarSimulation._defending_army sim))
                         (platoons arr))).
Proof.
  unfold WarSimulation.get_battle_report, WarSimulation._simulate_battles,
    get_platoon_count, platoons. simpl. split.
  - rewrite length_map. apply length_combine.
  - rewrite combine_firstn_l. reflexivity.
Qed.

(** ** Splitting and joining *)

Lemma occurs_app (c : ascii) (s t : string) :
  occurs c (s ++ t)%string = occurs c s || occurs c t.
Proof.
  induction s as [| c' s IH]; simpl; [reflexivity |].
  rewrite IH. apply orb_assoc.
Qed.

Lemma occurs_occurrences (c : ascii) (s : string) :
  occurs c s = false <-> occurrences c s = 0%nat.
Proof.
  induction s as [| c' s IH]; simpl; [tauto |].
  destruct (Ascii.eqb c' c); simpl; [split; [discriminate | lia] | exact IH].
Qed.

Lemma split_nonempty (c : ascii) (s : string) : split c s <> [].
Proof.
  destruct s as [| c' s]; simpl; [discriminate |].
  destruct (Ascii.eqb c' c); [discriminate |].
  destruct (split c s); discriminate.
Qed.

Lemma length_split (c : ascii) (s : string) :
  length (split c s) = S (occurrences c s).
Proof.
  induction s as [| c' s IH]; simpl; [reflexivity |].
  destruct (Ascii.eqb c' c); simpl; [rewrite IH; reflexivity |].
  pose proof (split_nonempty c s) as Hne.
  destruct (split c s) as [| part parts]; [contradiction | exact IH].
Qed.

Lemma split_absent (c : ascii) (s : string) :
  occurs c s = false -> split c s = [s].
Proof.
  induction s as [| c' s IH]; simpl; [reflexivity |].
  destruct (Ascii.eqb c' c); simpl; [discriminate |].
  intros H. rewrite (IH H). reflexivity.
Qed.

Lemma split_app (c : ascii) (s rest : string) :
  occurs c s = false ->
  split c (s ++ String c rest)%string = s :: split c rest.
Proof.
  induction s as [| c' s IH]; simpl.
  - intros _. rewrite Ascii.eqb_refl. reflexivity.
  - destruct (Ascii.eqb c' c); simpl; [discriminate |].
    intros H. rewrite (IH H). reflexivity.
Qed.

(** Splitting undoes joining when no part holds the separator and there is
    at least one part. *)
Lemma split_join (c : ascii) (parts : list string) :
  parts <> [] ->
  Forall (fun part => occurs c part = false) parts ->
  split c (join (String c EmptyString) parts) = parts.
Proof.
  induction parts as [| part parts IH]; [congruence |].
  intros _ Hall. inversion Hall as [| ? ? Hpart Hparts]; subst.
  destruct parts as [| part' parts'].
  - simpl. apply split_absent. exact Hpart.
  - change (join (String c EmptyString) (part :: part' :: parts'))
      with (part ++ String c (join (String c EmptyString) (part' :: parts')))%string.
    rewrite split_app by exact Hpart.
    rewrite IH; [reflexivity | discriminate | exact Hparts].
Qed.

(** ** Unit names and counts as text *)

Lemma UnitType_of_value_value (t : UnitType) :
  UnitType_of_value (UnitType_value t) = Ok t.
Proof. destruct t; reflexivity. Qed.

Lemma UnitType_of_value_Ok (s : string) (t : UnitType) :
  UnitType_of_value s = Ok t -> s = UnitType_value t.
Proof.
  unfold UnitType_of_value.
  destruct (find _ _) as [t' |] eqn:Hfind; [| discriminate].
  intros [= <-]. apply find_some in Hfind. destruct Hfind as [_ Heq].
  apply String.eqb_eq in Heq. symmetry. exact Heq.
Qed.

Lemma UnitType_value_plain (t : UnitType) :
  occurs ";" (UnitType_value t) = false /\ occurs "#" (UnitType_value t) = false.
Proof. destruct t; split; reflexivity. Qed.

Lemma string_of_uint_plain (d : uint) :
  occurs ";" (NilEmpty.string_of_uint d) = false
  /\ occurs "#" (NilEmpty.string_of_uint d) = false.
Proof. induction d; simpl; auto. Qed.

Lemma int_str_plain (n : Z) :
  occurs ";" (int_str n) = false /\ occurs "#" (int_str n) = false.
Proof.
  unfold int_str, NilZero.string_of_int, NilZero.string_of_uint.
  destruct (Z.to_int n) as [d | d]; destruct d; simpl;
    try (split; reflexivity);
    match goal with
    | |- context [NilEmpty.string_of_uint ?d] =>
        exact (string_of_uint_plain d)
    end.
Qed.

Lemma Unit_str_no_semicolon (u : Unit) : occurs ";" (Unit_str u) = false.
Proof.
  unfold Unit_str. rewrite !occurs_app.
  rewrite (proj1 (UnitType_value_plain _)), (proj1 (int_str_plain _)).
  reflexivity.
Qed.

Lemma split_Unit_str (u : Unit) :
  split "#" (Unit_str u) = [UnitType_value (unit_type u); int_str (count u)].
Proof.
  unfold Unit_str. simpl append.
  rewrite split_app by apply UnitType_value_plain.
  rewrite split_absent by apply int_str_plain. reflexivity.
Qed.

(** The plain decimal reader reads back what [str] writes. *)
Lemma int_decimal_str (n : Z) : int_decimal (int_str n) = Ok n.
Proof.
  unfold int_decimal, int_str. rewrite NilZero.isi.
  - rewrite DecimalZ.of_to. reflexivity.
  - destruct n; simpl; try discriminate.
    intros [= H]. exact (Unsigned.to_uint_nonnil _ H).
  - destruct n; simpl; try discriminate.
    intros [= H]. exact (Unsigned.to_uint_nonnil _ H).
Qed.

(** ** The parser *)

Section ParserFacts.

Variable int : string -> result Z.

Lemma parse_platoon_Unit_str (u : Unit) :
  (forall n, int (int_str n) = Ok n) ->
  PlatoonParser.parse_platoon int (Unit_str u) = Ok u.
Proof.
  intros Hint. unfold PlatoonParser.parse_platoon.
  rewrite split_Unit_str, UnitType_of_value_value. simpl.
  rewrite Hint. simpl. destruct u as [[] n]; reflexivity.
Qed.

Lemma parse_loop_Unit_str (l acc : list Unit) :
  (forall n, int (int_str n) = Ok n) ->
  PlatoonParser.parse_loop int (map Unit_str l) acc = Ok (acc ++ l).
Proof.
  intros Hint. revert acc. induction l as [| u l IH]; intros acc; simpl.
  - rewrite app_nil_r. reflexivity.
  - rewrite parse_platoon_Unit_str by exact Hint. simpl.
    rewrite IH, <- app_assoc. reflexivity.
Qed.

Lemma parse_loop_length (parts : list string) (acc l : list Unit) :
  PlatoonParser.parse_loop int parts acc = Ok l ->
  length l = (length acc + length parts)%nat.
Proof.
  revert acc. induction parts as [| part parts IH]; intros acc; simpl.
  - intros [= <-]. lia.
  - destruct (PlatoonParser.parse_platoon int part) as [u | e]; simpl;
      [| discriminate].
    intros H. apply IH in H. rewrite length_app in H. simpl in H. lia.
Qed.

Lemma parse_loop_raises (parts : list string) (acc : list Unit) (part : string) :
  In part parts ->
  (forall u, PlatoonParser.parse_platoon int part <> Ok u) ->
  exists msg, PlatoonParser.parse_loop int parts acc = Raise (ValueError msg).
Proof.
  intros Hin Hbad. revert acc.
  induction parts as [| p parts IH]; intros acc; [contradiction |]. simpl.
  destruct (PlatoonParser.parse_platoon int p) as [u | [msg]] eqn:Hp; simpl.
  - destruct Hin as [-> | Hin]; [exfalso; exact (Hbad u Hp) |].
    apply IH. exact Hin.
  - exists msg. reflexivity.
Qed.

Lemma parse_army_raises (s part : string) :
  In part (split ";" s) ->
  (forall u, PlatoonParser.parse_platoon int part <> Ok u) ->
  exists msg, PlatoonParser.parse_army int s = Raise (ValueError msg).
Proof.
  intros Hin Hbad. unfold PlatoonParser.parse_army.
  destruct (parse_loop_raises _ [] _ Hin Hbad) as [msg ->].
  exists msg. reflexivity.
Qed.

End ParserFacts.

Lemma parse_army_Army_str (int : string -> result Z) (a : Army) :
  (forall n, int (int_str n) = Ok n) ->
  platoons a <> [] ->
  PlatoonParser.parse_army int (Army_str a) = Ok a.
Proof.
  intros Hint Hne. unfold PlatoonParser.parse_army, Army_str.
  rewrite split_join.
  - rewrite parse_loop_Unit_str by exact Hint. destruct a. reflexivity.
  - destruct a as [[| u l]]; [contradiction | discriminate].
  - apply Forall_forall. intros part Hpart.
    apply in_map_iff in Hpart. destruct Hpart as (u & <- & _).
    apply Unit_str_no_semicolon.
Qed.

(** X8.  Parsing undoes printing: for a reader of integers that reads back
    what [str] writes, the text of an army of at least one platoon parses
    to that very army, negative counts included. *)
Theorem parse_army_round_trip (int : string -> result Z) (a : Army) :
  (forall n, int (int_str n) = Ok n) ->
  (1 <= get_platoon_count a)%nat ->
  PlatoonParser.parse_army int (Army_str a) = Ok a.
Proof.
  intros Hint Hne. apply parse_army_Army_str; [exact Hint |].
  unfold get_platoon_count, platoons in *. intros E. rewrite E in Hne.
  simpl in Hne. lia.
Qed.

Lemma parse_army_round_trip_witness :
  PlatoonParser.parse_army int_decimal
    (Army_str (mkArmy [mkUnit MILITIA (-3); mkUnit CAVALRY_ARCHER 0;
                       mkUnit HEAVY_CAVALRY 120]))
  = Ok (mkArmy [mkUnit MILITIA (-3); mkUnit CAVALRY_ARCHER 0;
                mkUnit HEAVY_CAVALRY 120]).
Proof.
  apply (parse_army_round_trip int_decimal).
  - exact int_decimal_str.
  - unfold get_platoon_count. simpl. lia.
Defined.

(** X9.  Whatever the reader of integers, a parsed army has one platoon
    more than the text has semicolons; in particular the parser never
    yields an army without platoons. *)
Theorem parse_army_platoon_count (int : string -> result Z) (s : string) (a : Army) :
  PlatoonParser.parse_army int s = Ok a ->
  get_platoon_count a = S (occurrences ";" s).
Proof.
  unfold PlatoonParser.parse_army.
  destruct (PlatoonParser.parse_loop int (split ";" s) []) as [l | e] eqn:Hl;
    simpl; [| discriminate].
  intros [= <-]. apply parse_loop_length in Hl.
  rewrite length_split in Hl. exact Hl.
Qed.

Lemma parse_army_platoon_count_witness :
  get_platoon_count (mkArmy [mkUnit MILITIA 10; mkUnit SPEARMEN 7])
  = S (occurrences ";" "Militia#10;Spearmen#7").
Proof.
  apply (parse_army_platoon_count int_decimal). reflexivity.
Defined.

(** X10.  Whatever the reader of integers, a text one of whose
    semicolon-separated parts does not hold exactly one [#] is refused with
    a [ValueError]: so are the empty text, a trailing semicolon and a part
    with a second [#]. *)
Theorem parse_army_malformed_part (int : string -> result Z) (s part : string) :
  In part (split ";" s) ->
  occurrences "#" part <> 1%nat ->
  exists msg, PlatoonParser.parse_army int s = Raise (ValueError msg).
Proof.
  intros Hin Hbad. apply (parse_army_raises int s part Hin).
  intros u. unfold PlatoonParser.parse_platoon.
  pose proof (length_split "#" part) as Hlen.
  destruct (split "#" part) as [| x [| y [| z rest]]]; simpl in Hlen;
    try discriminate.
  exfalso. apply Hbad. lia.
Qed.

Lemma parse_army_malformed_part_witness :
  exists msg,
    PlatoonParser.parse_army int_decimal "Militia#10;" = Raise (ValueError msg).
Proof.
  apply (parse_army_malformed_part int_decimal "Militia#10;" "").
  - simpl. right. left. reflexivity.
  - simpl. lia.
Defined.

(** X11.  Whatever the reader of integers, a text with a part whose name
    before the [#] is not the value of one of the six unit types, letter
    case included, is refused with a [ValueError]. *)
Theorem parse_army_unknown_type
        (int : string -> result Z) (s part name cnt : string) :
  In part (split ";" s) ->
  split "#" part = [name; cnt] ->
  (forall t, UnitType_value t <> name) ->
  exists msg, PlatoonParser.parse_army int s = Raise (ValueError msg).
Proof.
  intros Hin Hsplit Hname. apply (parse_army_raises int s part Hin).
  intros u. unfold PlatoonParser.parse_platoon. rewrite Hsplit.
  destruct (UnitType_of_value name) as [t | e] eqn:Ht; simpl;
    [| discriminate].
  apply UnitType_of_value_Ok in Ht. exfalso. apply (Hname t). congruence.
Qed.

Lemma parse_army_unknown_type_witness :
  exists msg,
    PlatoonParser.parse_army int_decimal "Spearmen#4;militia#10"
    = Raise (ValueError msg).
Proof.
  apply (parse_army_unknown_type int_decimal "Spearmen#4;militia#10"
                                 "militia#10" "militia" "10").
  - simpl. right. left. reflexivity.
  - reflexivity.
  - intros t. destruct t; discriminate.
Defined.

(** X12.  Armies are told apart by their text: two armies with the same
    text are the same army. *)
Theorem Army_str_injective (a b : Army) : Army_str a = Army_str b -> a = b.
Proof.
  intros Heq.
  assert (Hempty : forall c : Army,
             platoons c = [] ->
             PlatoonParser.parse_army int_decimal (Army_str c)
             = Raise (ValueError "not enough values to unpack (expected 2, got 1)")).
  { intros [l] Hc. simpl in Hc. subst l. reflexivity. }
  destruct (platoons a) as [| ua la] eqn:Ha;
    destruct (platoons b) as [| ub lb] eqn:Hb.
  - destruct a, b. simpl in *. congruence.
  - pose proof (Hempty a Ha) as H1.
    rewrite Heq, parse_army_Army_str in H1;
      [discriminate | exact int_decimal_str | rewrite Hb; discriminate].
  - pose proof (Hempty b Hb) as H1.
    rewrite <- Heq, parse_army_Army_str in H1;
      [discriminate | exact int_decimal_str | rewrite Ha; discriminate].
  - assert (Hpa : PlatoonParser.parse_army int_decimal (Army_str a) = Ok a)
      by (apply parse_army_Army_str;
          [exact int_decimal_str | rewrite Ha; discriminate]).
    assert (Hpb : PlatoonParser.parse_army int_decimal (Army_str b) = Ok b)
      by (apply parse_army_Army_str;
          [exact int_decimal_str | rewrite Hb; discriminate]).
    congruence.
Qed.

Lemma Army_str_injective_witness :
  mkArmy [mkUnit MILITIA 10; mkUnit SPEARMEN 7]
  = mkArmy [mkUnit MILITIA 10; mkUnit SPEARMEN 7].
Proof.
  apply (Army_str_injective (mkArmy [mkUnit MILITIA 10; mkUnit SPEARMEN 7])
                            (mkArmy [mkUnit MILITIA 10; mkUnit SPEARMEN 7])).
  reflexivity.
Defined.

(** ** The report *)

Lemma report_loop_spec (battles : list Battle.t) :
  forall (k : nat) (w : Z) (out : list string),
    BattleReporter.report_loop (Z.of_nat k) w battles out
    = (w + Z.of_nat (wins (map Battle.outcome battles)),
       out ++ map (fun ib =>
                     ("Battle " ++ int_str (Z.of_nat (fst ib)) ++ ": "
                        ++ Battle_str (snd ib))%string)
                  (combine (seq k (length battles)) battles)).
Proof.
  induction battles as [| b bs IH]; intros k w out.
  - simpl. rewrite app_nil_r. f_equal. unfold wins. simpl. lia.
  - cbn [BattleReporter.report_loop].
    replace (Z.of_nat k + 1) with (Z.of_nat (S k)) by lia.
    rewrite IH. cbn [length seq combine map fst snd].
    rewrite <- app_assoc. cbn [app]. f_equal.
    unfold wins. cbn [filter].
    destruct (BattleOutcome_eqb (Battle.outcome b) WIN); cbn [length]; lia.
Qed.

(** X13.  The detailed report is three heading lines, one line per battle
    numbered from 1 in order, and a closing line whose tally is the number
    of battles won out of the number of battles. *)
Theorem print_detailed_report_lines (arrangement : Army) (battles : list Battle.t) :
  BattleReporter.print_detailed_report arrangement battles
  = [ "Winning arrangement found:"%string;
      Army_str arrangement;
      (nl ++ "Battle details:")%string ]
    ++ map (fun ib =>
              ("Battle " ++ int_str (Z.of_nat (fst ib)) ++ ": "
                 ++ Battle_str (snd ib))%string)
           (combine (seq 1 (length battles)) battles)
    ++ [ (nl ++ "Result: "
             ++ int_str (Z.of_nat (wins (map Battle.outcome battles)))
             ++ "/" ++ int_str (Z.of_nat (length battles))
             ++ " battles won")%string ].
Proof.
  unfold BattleReporter.print_detailed_report.
  change 1 with (Z.of_nat 1). rewrite report_loop_spec.
  rewrite Z.add_0_l, <- app_assoc. reflexivity.
Qed.

(** ** The game controller *)

Lemma attempt_rendered (int : string -> result Z) (a d : Army) :
  (forall n, int (int_str n) = Ok n) ->
  platoons a <> [] -> platoons d <> [] ->
  AgeOfWarGame.attempt int (Army_str a) (Army_str d)
  = (simulation <- WarSimulation.init a d ;;
     Ok (simulation, WarSimulation.find_winning_arrangement simulation)).
Proof.
  intros Hint Ha Hd. unfold AgeOfWarGame.attempt.
  rewrite !parse_army_Army_str by assumption. reflexivity.
Qed.

(** X14.  On the texts of two armies of at least one platoon each, and with
    a reader of integers that reads back what [str] writes, the controller
    answers with the text of the arrangement found by construct-then-search,
    with the no-chance message when the search finds none, and with the
    prefixed error message when construction raises. *)
Theorem solve_war_scenario_rendered (int : string -> result Z) (a d : Army) :
  (forall n, int (int_str n) = Ok n) ->
  (1 <= get_platoon_count a)%nat -> (1 <= get_platoon_count d)%nat ->
  fst (AgeOfWarGame.solve_war_scenario int (Army_str a) (Army_str d))
  = match simulate_war a d with
    | Ok (Some arr) => Army_str arr
    | Ok None => "There is no chance of winning"%string
    | Raise (ValueError e) => ("Error processing input: " ++ e)%string
    end.
Proof.
  intros Hint Ha Hd. unfold AgeOfWarGame.solve_war_scenario.
  rewrite attempt_rendered; try exact Hint.
  - unfold simulate_war.
    destruct (WarSimulation.init a d) as [sim | [e]]; simpl; [| reflexivity].
    destruct (WarSimulation.find_winning_arrangement sim); reflexivity.
  - unfold get_platoon_count, platoons in *. intros E. rewrite E in Ha.
    simpl in Ha. lia.
  - unfold get_platoon_count, platoons in *. intros E. rewrite E in Hd.
    simpl in Hd. lia.
Qed.

Lemma solve_war_scenario_rendered_witness :
  fst (AgeOfWarGame.solve_war_scenario int_decimal
         (Army_str sample_attackers) (Army_str sample_defenders))
  = match simulate_war sample_attackers sample_defenders with
    | Ok (Some arr) => Army_str arr
    | Ok None => "There is no chance of winning"%string
    | Raise (ValueError e) => ("Error processing input: " ++ e)%string
    end.
Proof.
  apply (solve_war_scenario_rendered int_decimal sample_attackers sample_defenders).
  - exact int_decimal_str.
  - unfold get_platoon_count. simpl. lia.
  - unfold get_platoon_count. simpl. lia.
Defined.

(** X15.  On any two texts and with any reader of integers the controller
    does one of three things.  It answers and prints the prefixed message
    of the first error: of parsing the attackers, else of parsing the
    defenders, else of unequal platoon counts.  Or both texts parse to
    armies of equal length, no rearrangement of the attackers reaches three
    wins, and it answers and prints the no-chance message.  Or it answers
    with the text of a rearrangement of the parsed attackers that wins at
    least three battles against the parsed defenders and prints the
    detailed report of its battles. *)
Theorem solve_war_scenario_cases (int : string -> result Z) (sa sd : string) :
  (exists e,
      AgeOfWarGame.solve_war_scenario int sa sd
      = (("Error processing input: " ++ e)%string,
         [("Error processing input: " ++ e)%string])
      /\ (PlatoonParser.parse_army int sa = Raise (ValueError e)
          \/ (exists a, PlatoonParser.parse_army int sa = Ok a
                        /\ PlatoonParser.parse_army int sd = Raise (ValueError e))
          \/ (exists a d, PlatoonParser.parse_army int sa = Ok a
                          /\ PlatoonParser.parse_army int sd = Ok d
                          /\ get_platoon_count a <> get_platoon_count d
                          /\ e = "Armies must have the same number of platoons"%string)))
  \/ (exists a d,
         PlatoonParser.parse_army int sa = Ok a
         /\ PlatoonParser.parse_army int sd = Ok d
         /\ get_platoon_count a = get_platoon_count d
         /\ (forall p, Permutation p (platoons a) ->
                       (wins (pairwise_outcomes p (platoons d)) < 3)%nat)
         /\ AgeOfWarGame.solve_war_scenario int sa sd
            = ("There is no chance of winning"%string,
               ["There is no chance of winning"%string]))
  \/ (exists a d arr,
         PlatoonParser.parse_army int sa = Ok a
         /\ PlatoonParser.parse_army int sd = Ok d
         /\ Permutation (platoons arr) (platoons a)
         /\ (3 <= wins (pairwise_outcomes (platoons arr) (platoons d)))%nat
         /\ AgeOfWarGame.solve_war_scenario int sa sd
            = (Army_str arr,
               BattleReporter.print_detailed_report arr
                 (WarSimulation.get_battle_report (WarSimulation.mk a d) arr))).
Proof.
  unfold AgeOfWarGame.solve_war_scenario, AgeOfWarGame.attempt.
  destruct (PlatoonParser.parse_army int sa) as [a | [e]] eqn:Hsa; simpl;
    [| left; exists e; auto].
  destruct (PlatoonParser.parse_army int sd) as [d | [e]] eqn:Hsd; simpl;
    [| left; exists e; split; [reflexivity | right; left; exists a; auto]].
  destruct (Nat.eq_dec (get_platoon_count a) (get_platoon_count d)) as [Heq | Hne].
  - rewrite (init_equal_counts a d Heq). simpl.
    destruct (WarSimulation.find_winning_arrangement (WarSimulation.mk a d))
      as [arr |] eqn:Hfind.
    + right. right. exists a, d, arr.
      destruct (find_winning_arrangement_Some a d arr Hfind) as [Hperm Hq].
      apply qualifies_true in Hq. auto.
    + right. left. exists a, d.
      repeat split; try reflexivity; try exact Heq.
      intros p Hp. apply qualifies_false.
      unfold WarSimulation.find_winning_arrangement in Hfind. simpl in Hfind.
      apply search_None in Hfind. rewrite Forall_forall in Hfind.
      apply Hfind, permutations_complete, Hp.
  - rewrite (init_unequal_counts a d Hne). simpl.
    left. eexists. split; [reflexivity |].
    right. right. exists a, d. auto.
Qed.

(** ** The catalogue and the defenders *)

(** X16.  No unit type is without a prey or without a predator: each has
    the advantage over some type and some type has the advantage over
    it, and none has it over itself. *)
Theorem every_type_beats_and_is_beaten (k : UnitType) :
  (exists prey, beats k prey = true)
  /\ (exists predator, beats predator k = true)
  /\ beats k k = false.
Proof.
  destruct k; (split; [| split; [| reflexivity]]).
  - exists SPEARMEN. reflexivity.
  - exists HEAVY_CAVALRY. reflexivity.
  - exists LIGHT_CAVALRY. reflexivity.
  - exists MILITIA. reflexivity.
  - exists FOOT_ARCHER. reflexivity.
  - exists MILITIA. reflexivity.
  - exists MILITIA. reflexivity.
  - exists SPEARMEN. reflexivity.
  - exists MILITIA. reflexivity.
  - exists LIGHT_CAVALRY. reflexivity.
  - exists SPEARMEN. reflexivity.
  - exists LIGHT_CAVALRY. reflexivity.
Qed.

Lemma wins_weaker_defenders (arr ds ds' : list Unit) :
  Forall2 (fun x y => unit_type x = unit_type y /\ count y <= count x) ds ds' ->
  (wins (pairwise_outcomes arr ds) <= wins (pairwise_outcomes arr ds'))%nat.
Proof.
  intros H. revert arr.
  induction H as [| x y ds ds' [Ht Hc] _ IH]; intros arr.
  - destruct arr; apply Nat.le_refl.
  - destruct arr as [| u arr]; [apply Nat.le_refl |].
    specialize (IH arr). unfold wins, pairwise_outcomes in *.
    cbn [combine map filter fst snd].
    pose proof (calculate_outcome_monotone u u x y eq_refl Ht (Z.le_refl _) Hc)
      as Hr.
    destruct (Battle._calculate_outcome u x), (Battle._calculate_outcome u y);
      simpl in Hr; cbn [BattleOutcome_eqb length]; lia.
Qed.

(** X17.  Weaker defenders never take a chance away: when an arrangement
    is found against a defending army, one is found against every army
    with the same unit types position by position and counts that are no
    larger. *)
Theorem weaker_defenders_still_beaten (a d d' arr : Army) :
  Forall2 (fun x y => unit_type x = unit_type y /\ count y <= count x)
          (platoons d) (platoons d') ->
  WarSimulation.find_winning_arrangement (WarSimulation.mk a d) = Some arr ->
  exists arr',
    WarSimulation.find_winning_arrangement (WarSimulation.mk a d') = Some arr'.
Proof.
  intros Hweak Hfind.
  destruct (find_winning_arrangement_Some a d arr Hfind) as [Hperm Hq].
  destruct (WarSimulation.find_winning_arrangement (WarSimulation.mk a d'))
    as [arr' |] eqn:Hfind'; [exists arr'; reflexivity |].
  exfalso.
  unfold WarSimulation.find_winning_arrangement in Hfind'. simpl in Hfind'.
  apply search_None in Hfind'. rewrite Forall_forall in Hfind'.
  specialize (Hfind' (platoons arr) (permutations_complete _ _ Hperm)).
  apply qualifies_true in Hq. apply qualifies_false in Hfind'.
  pose proof (wins_weaker_defenders (platoons arr) _ _ Hweak). lia.
Qed.

Lemma weaker_defenders_still_beaten_witness :
  exists arr',
    WarSimulation.find_winning_arrangement
      (WarSimulation.mk sample_attackers
         (mkArmy [ mkUnit MILITIA 10; mkUnit SPEARMEN 9; mkUnit FOOT_ARCHER 1000;
                   mkUnit LIGHT_CAVALRY 100; mkUnit CAVALRY_ARCHER 100 ]))
    = Some arr'.
Proof.
  apply (weaker_defenders_still_beaten
           sample_attackers sample_defenders
           (mkArmy [ mkUnit MILITIA 10; mkUnit SPEARMEN 9; mkUnit FOOT_ARCHER 1000;
                     mkUnit LIGHT_CAVALRY 100; mkUnit CAVALRY_ARCHER 100 ])
           (mkArmy [ mkUnit SPEARMEN 10; mkUnit MILITIA 30; mkUnit FOOT_ARCHER 20;
                     mkUnit HEAVY_CAVALRY 120; mkUnit LIGHT_CAVALRY 1000 ])).
  - simpl. repeat constructor; simpl; lia.
  - vm_compute. reflexivity.
Defined.
